(** * Domain resolution and listing of the cf CLI (cf/api/domains.go and
      cf/commands/domain/domains.go): a shallow embedding and its properties.

    The repository layer ([CloudControllerDomainRepository]) walks paginated
    collections through the gateway and a per-item callback; the command
    layer ([ListDomains]) collects the domains of an organization, fetches
    the router groups when a shared domain refers to one, validates the
    references and prints a table. *)

From stdpp Require Import base option list strings gmap.

(** ** Data model *)

Module models.

(** models.DomainFields, with the fields the code reads and writes. *)
Record DomainFields : Type := mkDomainFields {
  Guid : string;
  Name : string;
  OwningOrganizationGuid : string;
  Shared : bool;
  RouterGroupGuid : string
}.

(** models.RouterGroup. *)
Record RouterGroup : Type := mkRouterGroup {
  rgGuid : string;
  rgName : string;
  rgType : string
}.

(** models.OrganizationFields, as far as the command reads it. *)
Record OrganizationFields : Type := mkOrganizationFields {
  orgGuid : string;
  orgName : string
}.

End models.
Export models.

(** Go's zero values [models.DomainFields{}] and [models.RouterGroup{}]. *)
Definition zeroDomainFields : DomainFields :=
  {| Guid := ""; Name := ""; OwningOrganizationGuid := "";
     Shared := false; RouterGroupGuid := "" |}.

Definition zeroRouterGroup : RouterGroup :=
  {| rgGuid := ""; rgName := ""; rgType := "" |}.

#[global] Instance DomainFields_eq_dec : EqDecision DomainFields.
Proof. solve_decision. Defined.

#[global] Instance RouterGroup_eq_dec : EqDecision RouterGroup.
Proof. solve_decision. Defined.

(** ** Errors

    Go's [error] interface: [nil] is [None].  The code tells
    [*errors.ModelNotFoundError] apart by a type switch; every other error
    value is opaque to it. *)
Module errors.

Inductive error : Type :=
| ModelNotFoundError (modelType modelName : string)
| GatewayError (message : string)
| PlainError (message : string).

Definition NewModelNotFoundError (modelType name : string) : error :=
  ModelNotFoundError modelType name.

Definition New (message : string) : error := PlainError message.

End errors.
Export errors.

#[global] Instance error_eq_dec : EqDecision error.
Proof. solve_decision. Defined.

(** ** Collection locators

    Modelled from the spec: strategy.EndpointStrategy (package
    cf/api/strategy) is missing here; every method of it that the repository
    calls yields the locator of one collection (spec section 6), so each
    method is a constructor.  [RouterGroupsURL] is the locator of "all
    router groups". *)
Inductive Path : Type :=
| PrivateDomainsByOrgURL (orgGuid : string)
| SharedDomainsURL
| SharedDomainURL (name : string)
| PrivateDomainURL (name : string)
| OrgDomainURL (orgGuid name : string)
| RouterGroupsURL.

#[global] Instance Path_eq_dec : EqDecision Path.
Proof. solve_decision. Defined.

(** ** Paginated collections

    Modelled from the spec: the gateway's page fetch (net.Gateway, package
    cf/net) is missing here.  Section 6 gives its interface:
    [fetchPage(locator, pageToken?) -> (items, nextPageToken: optional)],
    terminating with [nextPageToken = none]; a fetch may instead fail.  A
    collection is therefore a finite chain of pages, each of which is a
    failure, a last page, or a page with a successor. *)
Inductive Collection (A : Type) : Type :=
| FetchError (e : error)
| LastPage (items : list A)
| Page (items : list A) (next : Collection A).
Arguments FetchError {A} e.
Arguments LastPage {A} items.
Arguments Page {A} items next.

(** All items of a collection up to its first failing page, the first
    failure if any, and the number of page requests a full walk issues. *)
Fixpoint all_items {A} (c : Collection A) : list A :=
  match c with
  | FetchError _ => []
  | LastPage items => items
  | Page items next => items ++ all_items next
  end.

Fixpoint first_failure {A} (c : Collection A) : option error :=
  match c with
  | FetchError e => Some e
  | LastPage _ => None
  | Page _ next => first_failure next
  end.

Fixpoint page_count {A} (c : Collection A) : nat :=
  match c with
  | FetchError _ | LastPage _ => 1
  | Page _ next => S (page_count next)
  end.

(** What a walk that stops at the first item meets: a failure, nothing, or
    the first item in stream order. *)
Fixpoint first_item {A} (c : Collection A) : error + option A :=
  match c with
  | FetchError e => inl e
  | LastPage items => inr (head items)
  | Page items next =>
      match items with
      | x :: _ => inr (Some x)
      | [] => first_item next
      end
  end.

(** ** The request log

    Every page request is recorded under the locator of its collection, so
    that "is never queried" and "does not fetch" are statements about the
    log.  [Net A] is a computation that returns an [A] and the requests it
    issued, in order. *)
Definition Net (A : Type) : Type := (A * list Path)%type.

#[global] Instance Net_ret : MRet Net := λ A a, (a, []).
#[global] Instance Net_bind : MBind Net := λ A B f m,
  let '(a, log1) := m in
  let '(b, log2) := f a in
  (b, log1 ++ log2).

Definition request (path : Path) : Net unit := ((), [path]).

(** ** PaginatedLister

    A callback of the Go code is a closure over local variables; here the
    captured variables are the state [S] it transforms.  It returns
    [true] to continue and [false] to stop. *)
Definition Callback (S A : Type) : Type := S → A → S * bool.

(** The inner loop over the items of one page:
    [for _, resource := range resources { if !cb(resource) { return } }]. *)
Fixpoint walkItems {S A} (cb : Callback S A) (s : S) (items : list A) : S * bool :=
  match items with
  | [] => (s, true)
  | x :: rest =>
      let '(s', continue) := cb s x in
      if continue then walkItems cb s' rest else (s', false)
  end.

(** Modelled from the spec: net.Gateway.ListPaginatedResources (section
    4.1).  One request per page; a failing page aborts the walk with its
    error; after a callback returned [false] no further item is delivered
    and no further page is requested. *)
Fixpoint walkPages {S A} (path : Path) (cb : Callback S A) (s : S)
    (c : Collection A) : Net (S * option error) :=
  match c with
  | FetchError e => request path;; mret (s, Some e)
  | LastPage items => request path;; mret (fst (walkItems cb s items), None)
  | Page items next =>
      request path;;
      let '(s', continue) := walkItems cb s items in
      if continue then walkPages path cb s' next else mret (s', None)
  end.

Definition ListPaginatedResources {S A} (gateway : Path → Collection A)
    (path : Path) (cb : Callback S A) (s : S) : Net (S * option error) :=
  walkPages path cb s (gateway path).

(** ** cf/api/domains.go: CloudControllerDomainRepository *)

(** The repository with its collaborators: the gateway, seen as the
    collection each locator denotes, and [resources.DomainResource] with its
    [ToFields] conversion (package cf/api/resources; both are left
    arbitrary). *)
Record CloudControllerDomainRepository : Type := {
  DomainResource : Type;
  ToFields : DomainResource → DomainFields;
  gateway : Path → Collection DomainResource
}.

Definition listDomains {S} (repo : CloudControllerDomainRepository)
    (path : Path) (cb : Callback S DomainFields) (s : S) : Net (S * option error) :=
  ListPaginatedResources (gateway repo) path
    (λ s resource, cb s (ToFields repo resource)) s.

Definition ListDomainsForOrg {S} (repo : CloudControllerDomainRepository)
    (orgGuid : string) (cb : Callback S DomainFields) (s : S) : Net (S * option error) :=
  '(s, err) ← listDomains repo (PrivateDomainsByOrgURL orgGuid) cb s;
  match err with
  | Some e => mret (s, Some e)
  | None => listDomains repo SharedDomainsURL cb s
  end.

Definition isOrgDomain (orgGuid : string) (domain : DomainFields) : bool :=
  bool_decide (orgGuid = OwningOrganizationGuid domain) || Shared domain.

(** The closure of [findOneWithPath] captures [foundDomain] and [domain]. *)
Definition findOneCallback : Callback (bool * DomainFields) DomainFields :=
  λ _ result, ((true, result), false).

Definition findOneWithPath (repo : CloudControllerDomainRepository)
    (path : Path) (name : string) : Net (DomainFields * option error) :=
  '((foundDomain, domain), err) ←
    listDomains repo path findOneCallback (false, zeroDomainFields);
  let err :=
    match err with
    | None => if negb foundDomain then Some (NewModelNotFoundError "Domain" name) else None
    | Some e => Some e
    end in
  match err with
  | Some e => mret (zeroDomainFields, Some e)
  | None => mret (domain, None)
  end.

Definition FindSharedByName (repo : CloudControllerDomainRepository)
    (name : string) : Net (DomainFields * option error) :=
  findOneWithPath repo (SharedDomainURL name) name.

Definition FindPrivateByName (repo : CloudControllerDomainRepository)
    (name : string) : Net (DomainFields * option error) :=
  findOneWithPath repo (PrivateDomainURL name) name.

Definition FindByNameInOrg (repo : CloudControllerDomainRepository)
    (name orgGuid : string) : Net (DomainFields * option error) :=
  '(domain, err) ← findOneWithPath repo (OrgDomainURL orgGuid name) name;
  '(domain, err) ←
    match err with
    | Some (ModelNotFoundError _ _) =>
        '(domain, err) ← FindSharedByName repo name;
        if negb (Shared domain)
        then mret (domain, Some (NewModelNotFoundError "Domain" name))
        else mret (domain, err)
    | _ => mret (domain, err)
    end;
  match err with
  | Some e => mret (zeroDomainFields, Some e)
  | None => mret (domain, None)
  end.

(** The closure of [defaultDomain] captures the pointer [foundDomain]. *)
Definition defaultDomainCallback : Callback (option DomainFields) DomainFields :=
  λ _ domain, (Some domain, negb (Shared domain)).

Definition defaultDomain (repo : CloudControllerDomainRepository)
    (orgGuid : string) : Net (DomainFields * option error) :=
  '(foundDomain, _) ← ListDomainsForOrg repo orgGuid defaultDomainCallback None;
  match foundDomain with
  | None => mret (zeroDomainFields, Some (errors.New "Could not find a default domain"))
  | Some domain => mret (domain, None)
  end.

Definition FirstOrDefault (repo : CloudControllerDomainRepository)
    (orgGuid : string) (name : option string) : Net (DomainFields * option error) :=
  '(domain, err) ←
    match name with
    | None => defaultDomain repo orgGuid
    | Some name => FindByNameInOrg repo name orgGuid
    end;
  match err with
  | Some e => mret (zeroDomainFields, Some e)
  | None => mret (domain, None)
  end.

(** ** cf/commands/domain/domains.go: the ListDomains command *)

(** The translated messages [T("...", args)] the command shows, one
    constructor per template, carrying the template's arguments. *)
Inductive Message : Type :=
| GettingDomainsInOrg (OrgName Username : string)
| FailedFetchingDomains (Error : error)
| NoDomainsFound
| FailedFetchingRouterGroups (Err : error)
| InvalidRouterGroupGuid (Guid : string)
| RoutingApiUriMissing.

#[global] Instance Message_eq_dec : EqDecision Message.
Proof. solve_decision. Defined.

(** What an execution of the command does to the outside, in order: page
    requests, lines said, a failure reported, a table printed. *)
Inductive Event : Type :=
| Requested (path : Path)
| Said (message : Message)
| Failed (message : Message)
| Printed (headers : list string) (rows : list (list string)).

#[global] Instance Event_eq_dec : EqDecision Event.
Proof. solve_decision. Defined.

(** A command computation: the events so far and, unless it panicked, its
    value.  [ui.Failed] reports and panics (the tests of the command expect
    [Panic()] wherever it is reached), so nothing after it runs. *)
Definition Cmd (A : Type) : Type := (option A * list Event)%type.

#[global] Instance Cmd_ret : MRet Cmd := λ A a, (Some a, []).
#[global] Instance Cmd_bind : MBind Cmd := λ A B f m,
  match m with
  | (Some a, events1) => let '(b, events2) := f a in (b, events1 ++ events2)
  | (None, events1) => (None, events1)
  end.

Definition liftNet {A} (m : Net A) : Cmd A :=
  let '(a, log) := m in (Some a, Requested <$> log).

Module ui.

Definition Say (message : Message) : Cmd unit := (Some (), [Said message]).

(** Modelled from the spec: terminal.UI (package cf/terminal) is missing
    here; [Failed] prints the failure and panics. *)
Definition Failed {A} (message : Message) : Cmd A := (None, [Failed message]).

(** [cmd.ui.Table(headers)] followed by [table.Add] calls and
    [table.Print()]: the rows are printed in the order they were added. *)
Definition PrintTable (headers : list string) (rows : list (list string)) : Cmd unit :=
  (Some (), [Printed headers rows]).

End ui.

(** [for _, x := range l { body }] for a body that may panic. *)
Fixpoint forRange {A} (l : list A) (body : A → Cmd unit) : Cmd unit :=
  match l with
  | [] => mret ()
  | x :: rest => body x;; forRange rest body
  end.

(** requirements.Requirement, with the two implementations the tests of the
    command give it. *)
Inductive Requirement : Type :=
| passingRequirement
| failingRequirement.

Definition Requirement_Execute (r : Requirement) : Cmd bool :=
  match r with
  | passingRequirement => mret true
  | failingRequirement => ui.Failed RoutingApiUriMissing
  end.

(** core_config.Reader, as far as the command reads it. *)
Record Reader : Type := {
  config_OrganizationFields : OrganizationFields;
  config_Username : string
}.

(** Modelled from the spec: api.RoutingApiRepository (another file of
    package cf/api) is missing here.  [ListRouterGroups] walks the
    router-group collection through the PaginatedLister (spec section 2,
    data flow). *)
Record RoutingApiRepository : Type := {
  routerGroupCollection : Collection RouterGroup
}.

Definition ListRouterGroups {S} (repo : RoutingApiRepository)
    (cb : Callback S RouterGroup) (s : S) : Net (S * option error) :=
  walkPages RouterGroupsURL cb s (routerGroupCollection repo).

Record ListDomains : Type := {
  config : Reader;
  domainRepo : CloudControllerDomainRepository;
  routingApiRepo : RoutingApiRepository;
  rountingApiRequirement : Requirement
}.

(** The closure of [getDomains] captures [domains] and
    [populateRouterGroups]. *)
Definition getDomainsCallback : Callback (list DomainFields * bool) DomainFields :=
  λ '(domains, populateRouterGroups) domain,
    let domains := domains ++ [domain] in
    let populateRouterGroups :=
      if Shared domain && bool_decide (RouterGroupGuid domain ≠ ""%string)
      then true else populateRouterGroups in
    ((domains, populateRouterGroups), true).

Definition getDomains (cmd : ListDomains) (orgGuid : string)
    : Net (list DomainFields * bool * option error) :=
  '((domains, populateRouterGroups), err) ←
    ListDomainsForOrg (domainRepo cmd) orgGuid getDomainsCallback ([], false);
  match err with
  | Some e => mret ([], false, Some e)
  | None => mret (domains, populateRouterGroups, None)
  end.

(** The closure [cb] of [getRouterGroups] captures [routerGroupsMap]. *)
Definition getRouterGroupsCallback : Callback (gmap string RouterGroup) RouterGroup :=
  λ routerGroupsMap routerGroup,
    (<[rgGuid routerGroup := routerGroup]> routerGroupsMap, true).

Definition getRouterGroups (cmd : ListDomains)
    : Net (gmap string RouterGroup * option error) :=
  '(routerGroupsMap, err) ←
    ListRouterGroups (routingApiRepo cmd) getRouterGroupsCallback ∅;
  match err with
  | Some e => mret (∅, Some e)
  | None => mret (routerGroupsMap, None)
  end.

(** [routerGroups[guid]]: a missing key reads as the zero value. *)
Definition mapIndex (routerGroups : gmap string RouterGroup) (guid : string) : RouterGroup :=
  default zeroRouterGroup (routerGroups !! guid).

Definition printDomainsTable (domains : list DomainFields)
    (routerGroups : gmap string RouterGroup) : Cmd unit :=
  let table : list (list string) := [] in
  let table :=
    foldl (λ table domain,
      if Shared domain then
        if bool_decide (RouterGroupGuid domain ≠ ""%string)
        then table ++ [[Name domain; "shared"; rgType (mapIndex routerGroups (RouterGroupGuid domain))]]
        else table ++ [[Name domain; "shared"]]
      else table) table domains in
  let table :=
    foldl (λ table domain,
      if negb (Shared domain)
      then table ++ [[Name domain; "owned"]]
      else table) table domains in
  ui.PrintTable ["name"; "status"; "type"]%string table.

(** [Execute].  Since [ui.Failed] panics, the [return] that follows
    "Failed fetching router groups" in the source is never reached, and the
    validation loop ends at its first failure.  The map declared by
    [var routerGroups map[string]models.RouterGroup] is nil and reads as the
    empty map. *)
Definition Execute (cmd : ListDomains) : Cmd unit :=
  let org := config_OrganizationFields (config cmd) in
  ui.Say (GettingDomainsInOrg (orgName org) (config_Username (config cmd)));;
  '(domains, populateRouterGroups, err) ← liftNet (getDomains cmd (orgGuid org));
  match err with
  | Some e => ui.Failed (FailedFetchingDomains e)
  | None => mret ()
  end;;
  if bool_decide (length domains = 0) then
    ui.Say NoDomainsFound
  else
    routerGroups ←
      (if populateRouterGroups : bool then
         Requirement_Execute (rountingApiRequirement cmd);;
         '(routerGroups, err) ← liftNet (getRouterGroups cmd);
         match err with
         | Some e => ui.Failed (FailedFetchingRouterGroups e)
         | None =>
             forRange domains (λ domain,
               if Shared domain && bool_decide (RouterGroupGuid domain ≠ ""%string) then
                 if bool_decide (is_Some (routerGroups !! RouterGroupGuid domain))
                 then mret ()
                 else ui.Failed (InvalidRouterGroupGuid (RouterGroupGuid domain))
               else mret ());;
             mret routerGroups
         end
       else mret ∅);
    printDomainsTable domains routerGroups.

(** ** Notions the properties are stated with *)

(** A callback that never asks to stop. *)
Definition always_continues {S A} (cb : Callback S A) : Prop :=
  ∀ s x, (cb s x).2 = true.

(** [recording cb] behaves as [cb] and keeps, next to the state of [cb],
    the items it was called on, in order. *)
Definition recording {S A} (cb : Callback S A) : Callback (S * list A) A :=
  λ '(s, seen) x,
    let '(s', continue) := cb s x in ((s', seen ++ [x]), continue).

(** The items of a stream up to and including the first one on which the
    callback returns [false] (all of them if it never does). *)
Fixpoint upto_stop {S A} (cb : Callback S A) (s : S) (items : list A) : list A :=
  match items with
  | [] => []
  | x :: rest =>
      let '(s', continue) := cb s x in
      if continue then x :: upto_stop cb s' rest else [x]
  end.

(** The items a locator of the repository delivers, converted to domain
    fields, up to its first failing page. *)
Definition fieldsAt (repo : CloudControllerDomainRepository) (path : Path)
    : list DomainFields :=
  ToFields repo <$> all_items (gateway repo path).

(** The selection policy in the words of the specification (section 4.3):
    the first private domain of the visible stream; the last shared one
    when all are shared; an error when there is none. *)
Definition selectDefault_spec (visible : list DomainFields) : DomainFields * option error :=
  match find (λ d, negb (Shared d)) visible with
  | Some d => (d, None)
  | None =>
      match last visible with
      | Some d => (d, None)
      | None => (zeroDomainFields, Some (errors.New "Could not find a default domain"))
      end
  end.

(** The condition under which the command needs the router groups. *)
Definition refersToRouterGroup (domain : DomainFields) : bool :=
  Shared domain && bool_decide (RouterGroupGuid domain ≠ ""%string).

(** A domain whose router-group reference the index does not resolve. *)
Definition dangling (index : gmap string RouterGroup) (domain : DomainFields) : bool :=
  refersToRouterGroup domain && bool_decide (index !! RouterGroupGuid domain = None).

(** The index of a stream of router groups: later groups overwrite earlier
    ones with the same guid. *)
Definition routerGroupIndex (groups : list RouterGroup) : gmap string RouterGroup :=
  foldl (λ index group, <[rgGuid group := group]> index) ∅ groups.

(** A stable partition in the words of the specification (section 9): one
    pass that fills two ordered buffers, shared and private, concatenated
    at the end. *)
Fixpoint partitionBuffers (domains : list DomainFields)
    (shared private : list DomainFields) : list DomainFields * list DomainFields :=
  match domains with
  | [] => (shared, private)
  | d :: rest =>
      if Shared d then partitionBuffers rest (shared ++ [d]) private
      else partitionBuffers rest shared (private ++ [d])
  end.

Definition stablePartition (domains : list DomainFields) : list DomainFields :=
  let '(shared, private) := partitionBuffers domains [] [] in shared ++ private.

(** The table row of one domain. *)
Definition tableRow (routerGroups : gmap string RouterGroup) (domain : DomainFields) : list string :=
  if Shared domain then
    if bool_decide (RouterGroupGuid domain ≠ ""%string)
    then [Name domain; "shared"; rgType (mapIndex routerGroups (RouterGroupGuid domain))]%string
    else [Name domain; "shared"]%string
  else [Name domain; "owned"]%string.

(** ** Concrete worlds, for the examples *)

Definition exampleDomain (name : string) (shared : bool) (routerGroupGuid : string) : DomainFields :=
  {| Guid := name; Name := name; OwningOrganizationGuid := if shared then "" else "my-org-guid";
     Shared := shared; RouterGroupGuid := routerGroupGuid |}.

(** A repository whose resources are already domain fields, with the given
    collections behind the four locators of the listing and the resolution
    paths. *)
Definition exampleRepo (private shared orgByName sharedByName : Collection DomainFields)
    : CloudControllerDomainRepository :=
  {| DomainResource := DomainFields;
     ToFields := id;
     gateway := λ path,
       match path with
       | PrivateDomainsByOrgURL _ => private
       | SharedDomainsURL => shared
       | OrgDomainURL _ _ => orgByName
       | SharedDomainURL _ => sharedByName
       | _ => LastPage []
       end |}.

Definition exampleCmd (private shared : Collection DomainFields)
    (groups : Collection RouterGroup) (requirement : Requirement) : ListDomains :=
  {| config := {| config_OrganizationFields := {| orgGuid := "my-org-guid"; orgName := "my-org" |};
                  config_Username := "my-user" |};
     domainRepo := exampleRepo private shared (LastPage []) (LastPage []);
     routingApiRepo := {| routerGroupCollection := groups |};
     rountingApiRequirement := requirement |}.

(** ** Notions for the further properties *)

(** The number of pages a walk that stops at the first item requests: the
    pages up to and including the first one that fails, is the last, or
    holds an item. *)
Fixpoint pages_to_first_item {A} (c : Collection A) : nat :=
  match c with
  | FetchError _ | LastPage _ => 1
  | Page items next =>
      match items with
      | _ :: _ => 1
      | [] => S (pages_to_first_item next)
      end
  end.

(** The page requests among the events of a run, in order. *)
Definition requestsOf (events : list Event) : list Path :=
  omap (λ event, match event with Requested path => Some path | _ => None end) events.

(** * Properties *)

(** ** The monads *)

Lemma Net_bind_eq {A B} (f : A → Net B) (m : Net A) :
  m ≫= f = ((f m.1).1, m.2 ++ (f m.1).2).
Proof.
  destruct m as [a log1]. unfold mbind, Net_bind. simpl.
  by destruct (f a).
Qed.

Lemma Net_bind_fst {A B} (f : A → Net B) (m : Net A) :
  (m ≫= f).1 = (f m.1).1.
Proof. by rewrite Net_bind_eq. Qed.

Lemma Net_bind_snd {A B} (f : A → Net B) (m : Net A) :
  (m ≫= f).2 = m.2 ++ (f m.1).2.
Proof. by rewrite Net_bind_eq. Qed.

Lemma Cmd_bind_Some {A B} (f : A → Cmd B) (a : A) (events : list Event) :
  (Some a, events) ≫= f = ((f a).1, events ++ (f a).2).
Proof. unfold mbind, Cmd_bind. by destruct (f a). Qed.

Lemma Cmd_ret_bind {A B} (f : A → Cmd B) (a : A) : mret a ≫= f = f a.
Proof. unfold mret, Cmd_ret, mbind, Cmd_bind. by destruct (f a). Qed.

Lemma Cmd_bind_None {A B} (f : A → Cmd B) (events : list Event) :
  (None, events) ≫= f = (None, events).
Proof. done. Qed.

Lemma Say_bind {B} (f : unit → Cmd B) (message : Message) :
  ui.Say message ≫= f = ((f ()).1, Said message :: (f ()).2).
Proof. unfold ui.Say. by rewrite Cmd_bind_Some. Qed.

Lemma Failed_bind {A B} (f : A → Cmd B) (message : Message) :
  ui.Failed message ≫= f = (None, [Failed message]).
Proof. done. Qed.

Lemma liftNet_eq {A} (m : Net A) : liftNet m = (Some m.1, Requested <$> m.2).
Proof. by destruct m. Qed.

Lemma liftNet_bind {A B} (f : A → Cmd B) (m : Net A) :
  liftNet m ≫= f = ((f m.1).1, (Requested <$> m.2) ++ (f m.1).2).
Proof. by rewrite liftNet_eq, Cmd_bind_Some. Qed.


(** ** The paginated walk *)

Section walk.
Context {S A : Type}.
Implicit Types (cb : Callback S A) (s : S) (items : list A) (c : Collection A).

Lemma walkItems_app cb s items1 items2 :
  walkItems cb s (items1 ++ items2) =
    if (walkItems cb s items1).2
    then walkItems cb (walkItems cb s items1).1 items2
    else walkItems cb s items1.
Proof.
  revert s. induction items1 as [|x items1 IH]; intros s; simpl; [done|].
  destruct (cb s x) as [s' []]; simpl; [apply IH | done].
Qed.

Lemma walkPages_Page path cb s items next :
  walkPages path cb s (Page items next) =
    if (walkItems cb s items).2
    then ((walkPages path cb (walkItems cb s items).1 next).1,
          path :: (walkPages path cb (walkItems cb s items).1 next).2)
    else (((walkItems cb s items).1, None), [path]).
Proof.
  simpl. unfold mbind, Net_bind, request.
  destruct (walkItems cb s items) as [s' []]; simpl; [|done].
  by destruct (walkPages path cb s' next).
Qed.

(** A walk requests its own collection only, at least once and at most
    once per page. *)
Lemma walkPages_log path cb s c :
  ∃ n, (walkPages path cb s c).2 = replicate n path ∧ 1 ≤ n ≤ page_count c.
Proof.
  revert s. induction c as [e|items|items next IH]; intros s.
  - exists 1. split; [done | simpl; lia].
  - exists 1. split; [done | simpl; lia].
  - rewrite walkPages_Page.
    destruct (walkItems cb s items) as [s' []]; simpl.
    + destruct (IH s') as (n & -> & ?). exists (Datatypes.S n). split; [done | lia].
    + exists 1. split; [done | lia].
Qed.

Lemma walkPages_log_Forall path cb s c :
  Forall (λ p, p = path) (walkPages path cb s c).2.
Proof.
  destruct (walkPages_log path cb s c) as (n & -> & _).
  by apply Forall_replicate.
Qed.

(** The walk is the item loop over the items that precede the first
    failing page; the failure is met unless a callback stopped before. *)
Lemma walkPages_result path cb s c :
  (walkPages path cb s c).1 =
    ((walkItems cb s (all_items c)).1,
     if (walkItems cb s (all_items c)).2 then first_failure c else None).
Proof.
  revert s. induction c as [e|items|items next IH]; intros s.
  - done.
  - simpl. by destruct (walkItems cb s items) as [s' []].
  - rewrite walkPages_Page. cbn [all_items first_failure].
    rewrite walkItems_app.
    destruct (walkItems cb s items) as [s' []]; simpl; [by apply IH | done].
Qed.

(** A callback that never stops sees every item up to the first failing
    page, and every page is requested. *)
Lemma walkItems_always_continues cb s items :
  always_continues cb → (walkItems cb s items).2 = true.
Proof.
  intros Hcb. revert s. induction items as [|x items IH]; intros s; simpl; [done|].
  specialize (Hcb s x). destruct (cb s x) as [s' b]; simpl in *; subst b.
  apply IH.
Qed.

Lemma walkPages_always_continues path cb s c :
  always_continues cb →
  walkPages path cb s c =
    (((walkItems cb s (all_items c)).1, first_failure c),
     replicate (page_count c) path).
Proof.
  intros Hcb. revert s. induction c as [e|items|items next IH]; intros s.
  - done.
  - done.
  - rewrite walkPages_Page. cbn [all_items first_failure page_count].
    rewrite walkItems_app.
    rewrite (walkItems_always_continues cb s items Hcb).
    by rewrite IH.
Qed.

End walk.

(** The conversion that [listDomains] wraps around the callback. *)
Lemma walkItems_fmap {S A B} (f : A → B) (cb : Callback S B) (s : S) (items : list A) :
  walkItems (λ s x, cb s (f x)) s items = walkItems cb s (f <$> items).
Proof.
  revert s. induction items as [|x items IH]; intros s; simpl; [done|].
  destruct (cb s (f x)) as [s' []]; [apply IH | done].
Qed.

(** ** Name resolution *)

Section resolution.
Context (repo : CloudControllerDomainRepository).
Implicit Types (path : Path) (name orgGuid : string).

(** The walk of [findOneWithPath] stops at the first item in stream
    order. *)
Lemma walkPages_findOne {A} (f : A → DomainFields) path (c : Collection A) :
  (walkPages path (λ s r, findOneCallback s (f r)) (false, zeroDomainFields) c).1 =
    match first_item c with
    | inl e => ((false, zeroDomainFields), Some e)
    | inr None => ((false, zeroDomainFields), None)
    | inr (Some r) => ((true, f r), None)
    end.
Proof.
  induction c as [e|items|items next IH].
  - done.
  - by destruct items.
  - rewrite walkPages_Page. destruct items as [|x items]; simpl; [apply IH | done].
Qed.

Lemma findOneWithPath_result path name :
  (findOneWithPath repo path name).1 =
    match first_item (gateway repo path) with
    | inl e => (zeroDomainFields, Some e)
    | inr None => (zeroDomainFields, Some (NewModelNotFoundError "Domain" name))
    | inr (Some r) => (ToFields repo r, None)
    end.
Proof.
  unfold findOneWithPath, listDomains, ListPaginatedResources.
  rewrite Net_bind_fst, walkPages_findOne.
  by destruct (first_item (gateway repo path)) as [e|[r|]].
Qed.

Lemma findOneWithPath_log path name :
  Forall (λ p, p = path) (findOneWithPath repo path name).2.
Proof.
  unfold findOneWithPath, listDomains, ListPaginatedResources.
  rewrite Net_bind_snd.
  apply Forall_app. split; [apply walkPages_log_Forall|].
  match goal with |- context [walkPages ?p ?cb ?s ?c] =>
    destruct (walkPages p cb s c).1 as [[found domain] [e|]] end;
    simpl; [done|]. by destruct found.
Qed.

(** A failure of the org-scoped lookup other than "not found" reaches the
    caller as it is, and the shared collection is not consulted. *)
Lemma FindByNameInOrg_org_failure name orgGuid e :
  first_item (gateway repo (OrgDomainURL orgGuid name)) = inl e →
  (∀ modelType modelName, e ≠ ModelNotFoundError modelType modelName) →
  (FindByNameInOrg repo name orgGuid).1 = (zeroDomainFields, Some e).
Proof.
  intros Hfirst Hne. unfold FindByNameInOrg.
  rewrite Net_bind_fst, findOneWithPath_result, Hfirst.
  destruct e; simpl; [by edestruct Hne | done | done].
Qed.

End resolution.


(** [findOneWithPath] reads the gateway at its own locator only. *)
Lemma findOneWithPath_gateway_ext repo gateway' path name :
  gateway' path = gateway repo path →
  findOneWithPath
    {| DomainResource := DomainResource repo; ToFields := ToFields repo;
       gateway := gateway' |} path name
  = findOneWithPath repo path name.
Proof.
  intros Hsame. unfold findOneWithPath, listDomains, ListPaginatedResources.
  simpl. by rewrite Hsame.
Qed.

Lemma FindByNameInOrg_private_eq repo name orgGuid r :
  first_item (gateway repo (OrgDomainURL orgGuid name)) = inr (Some r) →
  FindByNameInOrg repo name orgGuid =
    ((ToFields repo r, None),
     (findOneWithPath repo (OrgDomainURL orgGuid name) name).2).
Proof.
  intros Hfirst. unfold FindByNameInOrg.
  pose proof (findOneWithPath_result repo (OrgDomainURL orgGuid name) name) as Hres.
  rewrite Hfirst in Hres.
  destruct (findOneWithPath repo (OrgDomainURL orgGuid name) name) as [res log].
  simpl in Hres. subst res. unfold mbind, Net_bind, mret, Net_ret. simpl.
  by rewrite !app_nil_r.
Qed.

(** C4. When the org-scoped lookup of a name yields a record,
    [FindByNameInOrg] returns that record without an error; every request
    it issues goes to the org-scoped locator, so the shared collection is
    never queried; and the outcome (result and requests) is the same for
    any gateway that serves the same org-scoped collection, whatever it
    serves for the shared one. *)
Theorem FindByNameInOrg_private_match repo name orgGuid r :
  first_item (gateway repo (OrgDomainURL orgGuid name)) = inr (Some r) →
  (FindByNameInOrg repo name orgGuid).1 = (ToFields repo r, None)
  ∧ (∀ p, p ∈ (FindByNameInOrg repo name orgGuid).2 → p = OrgDomainURL orgGuid name)
  ∧ (SharedDomainURL name ∉ (FindByNameInOrg repo name orgGuid).2)
  ∧ (SharedDomainsURL ∉ (FindByNameInOrg repo name orgGuid).2)
  ∧ (∀ gateway',
       gateway' (OrgDomainURL orgGuid name) = gateway repo (OrgDomainURL orgGuid name) →
       FindByNameInOrg
         {| DomainResource := DomainResource repo; ToFields := ToFields repo;
            gateway := gateway' |} name orgGuid
       = FindByNameInOrg repo name orgGuid).
Proof.
  intros Hfirst.
  pose proof (FindByNameInOrg_private_eq repo name orgGuid r Hfirst) as Heq.
  pose proof (findOneWithPath_log repo (OrgDomainURL orgGuid name) name) as Hlog.
  rewrite Forall_forall in Hlog.
  assert (Honly : ∀ p, p ∈ (FindByNameInOrg repo name orgGuid).2 →
                       p = OrgDomainURL orgGuid name).
  { intros p Hp. rewrite Heq in Hp. by apply Hlog. }
  split; [by rewrite Heq|]. split; [done|].
  split; [intros Hin; by specialize (Honly _ Hin)|].
  split; [intros Hin; by specialize (Honly _ Hin)|].
  intros gateway' Hsame.
  rewrite Heq.
  rewrite (FindByNameInOrg_private_eq
             {| DomainResource := DomainResource repo; ToFields := ToFields repo;
                gateway := gateway' |} name orgGuid r); simpl.
  - by rewrite findOneWithPath_gateway_ext.
  - by rewrite Hsame.
Qed.

Lemma FindByNameInOrg_private_match_witness :
  let d := exampleDomain "example.com" false "" in
  let repo := exampleRepo (LastPage []) (LastPage []) (Page [] (LastPage [d]))
                (FetchError (GatewayError "unreachable")) in
  (FindByNameInOrg repo "example.com" "my-org-guid").1 = (d, None)
  ∧ (SharedDomainURL "example.com" ∉ (FindByNameInOrg repo "example.com" "my-org-guid").2).
Proof.
  intros d repo.
  destruct (FindByNameInOrg_private_match repo "example.com" "my-org-guid" d)
    as (Hres & _ & Hshared & _); [reflexivity|].
  split; [exact Hres | exact Hshared].
Defined.

(** C5. When the org-scoped lookup yields no record and the shared-scope
    lookup yields a record, [FindByNameInOrg] returns that record exactly
    when its [Shared] flag is set; otherwise it returns the zero domain and
    a not-found error for kind "Domain" and the name. *)
Theorem FindByNameInOrg_shared_fallback repo name orgGuid r :
  first_item (gateway repo (OrgDomainURL orgGuid name)) = inr None →
  first_item (gateway repo (SharedDomainURL name)) = inr (Some r) →
  (FindByNameInOrg repo name orgGuid).1 =
    if Shared (ToFields repo r)
    then (ToFields repo r, None)
    else (zeroDomainFields, Some (ModelNotFoundError "Domain" name)).
Proof.
  intros Horg Hshared. unfold FindByNameInOrg, FindSharedByName.
  rewrite Net_bind_fst, findOneWithPath_result, Horg. simpl.
  rewrite !Net_bind_fst, findOneWithPath_result, Hshared. simpl.
  by destruct (Shared (ToFields repo r)).
Qed.

Lemma FindByNameInOrg_shared_fallback_witness :
  let d := exampleDomain "example.com" false "" in
  let repo := exampleRepo (LastPage []) (LastPage []) (LastPage []) (LastPage [d]) in
  (FindByNameInOrg repo "example.com" "my-org-guid").1 =
    (zeroDomainFields, Some (ModelNotFoundError "Domain" "example.com")).
Proof.
  intros d repo.
  exact (FindByNameInOrg_shared_fallback repo "example.com" "my-org-guid" d
           eq_refl eq_refl).
Defined.

(** C6. When neither the org-scoped lookup nor the shared-scope lookup
    yields a record, [FindByNameInOrg] returns the zero domain and a
    not-found error for kind "Domain" and the name. *)
Theorem FindByNameInOrg_not_found repo name orgGuid :
  first_item (gateway repo (OrgDomainURL orgGuid name)) = inr None →
  first_item (gateway repo (SharedDomainURL name)) = inr None →
  (FindByNameInOrg repo name orgGuid).1 =
    (zeroDomainFields, Some (ModelNotFoundError "Domain" name)).
Proof.
  intros Horg Hshared. unfold FindByNameInOrg, FindSharedByName.
  rewrite Net_bind_fst, findOneWithPath_result, Horg. simpl.
  by rewrite !Net_bind_fst, findOneWithPath_result, Hshared.
Qed.

Lemma FindByNameInOrg_not_found_witness :
  let repo := exampleRepo (LastPage []) (LastPage []) (Page [] (LastPage [])) (LastPage []) in
  (FindByNameInOrg repo "example.com" "my-org-guid").1 =
    (zeroDomainFields, Some (ModelNotFoundError "Domain" "example.com")).
Proof.
  intros repo.
  exact (FindByNameInOrg_not_found repo "example.com" "my-org-guid" eq_refl eq_refl).
Defined.

(** ** Listing the domains of an organization *)

Section listing.
Context (repo : CloudControllerDomainRepository).

Lemma listDomains_result {S} path (cb : Callback S DomainFields) s :
  (listDomains repo path cb s).1 =
    ((walkItems cb s (fieldsAt repo path)).1,
     if (walkItems cb s (fieldsAt repo path)).2
     then first_failure (gateway repo path) else None).
Proof.
  unfold listDomains, ListPaginatedResources, fieldsAt.
  by rewrite walkPages_result, walkItems_fmap.
Qed.

Lemma listDomains_log {S} path (cb : Callback S DomainFields) s :
  ∃ n, (listDomains repo path cb s).2 = replicate n path
       ∧ 1 ≤ n ≤ page_count (gateway repo path).
Proof. apply walkPages_log. Qed.

Lemma listDomains_always_continues {S} path (cb : Callback S DomainFields) s :
  always_continues cb →
  listDomains repo path cb s =
    (((walkItems cb s (fieldsAt repo path)).1, first_failure (gateway repo path)),
     replicate (page_count (gateway repo path)) path).
Proof.
  intros Hcb. unfold listDomains, ListPaginatedResources, fieldsAt.
  rewrite walkPages_always_continues; [|by intros ??; apply Hcb].
  by rewrite walkItems_fmap.
Qed.

Lemma ListDomainsForOrg_eq {S} orgGuid (cb : Callback S DomainFields) s :
  ListDomainsForOrg repo orgGuid cb s =
    let private := listDomains repo (PrivateDomainsByOrgURL orgGuid) cb s in
    match private.1.2 with
    | Some e => (private.1, private.2)
    | None =>
        ((listDomains repo SharedDomainsURL cb private.1.1).1,
         private.2 ++ (listDomains repo SharedDomainsURL cb private.1.1).2)
    end.
Proof.
  unfold ListDomainsForOrg. rewrite Net_bind_eq.
  destruct (listDomains repo (PrivateDomainsByOrgURL orgGuid) cb s)
    as [[s1 [e|]] log1]; simpl; [by rewrite app_nil_r | done].
Qed.

End listing.

Lemma walkItems_recording {S A} (cb : Callback S A) s seen items :
  walkItems (recording cb) (s, seen) items =
    (((walkItems cb s items).1, seen ++ upto_stop cb s items),
     (walkItems cb s items).2).
Proof.
  revert s seen. induction items as [|x items IH]; intros s seen; simpl.
  - by rewrite app_nil_r.
  - destruct (cb s x) as [s' []]; simpl; [|done].
    rewrite IH. by rewrite <- app_assoc.
Qed.

Lemma listDomains_recording {S} repo path (cb : Callback S DomainFields) s seen :
  (listDomains repo path (recording cb) (s, seen)).1 =
    (((listDomains repo path cb s).1.1, seen ++ upto_stop cb s (fieldsAt repo path)),
     (listDomains repo path cb s).1.2).
Proof. by rewrite !listDomains_result, walkItems_recording. Qed.

Lemma ListDomainsForOrg_recording {S} repo orgGuid (cb : Callback S DomainFields) s :
  (listDomains repo (PrivateDomainsByOrgURL orgGuid) cb s).1.2 = None →
  (ListDomainsForOrg repo orgGuid (recording cb) (s, [])).1.1.2 =
    upto_stop cb s (fieldsAt repo (PrivateDomainsByOrgURL orgGuid))
    ++ upto_stop cb (walkItems cb s (fieldsAt repo (PrivateDomainsByOrgURL orgGuid))).1
         (fieldsAt repo SharedDomainsURL).
Proof.
  intros Hok. rewrite ListDomainsForOrg_eq. cbn zeta.
  rewrite !listDomains_recording. cbn [fst snd]. rewrite Hok.
  rewrite listDomains_recording. cbn [fst snd app].
  by rewrite listDomains_result.
Qed.

(** C8, as the code has it.  When the walk of the private collection
    returns no error, [ListDomainsForOrg] calls the callback on the items of the private
    collection up to and including the first one on which it returns
    [false], and then on the items of the shared collection, again up to
    and including the first one on which it returns [false]: a stop during
    the private walk ends that walk only, and the shared collection is
    requested all the same.  Recording the calls does not change the state
    the callback ends in nor the error returned. *)
Theorem ListDomainsForOrg_deliveries {S} repo orgGuid (cb : Callback S DomainFields) s :
  (listDomains repo (PrivateDomainsByOrgURL orgGuid) cb s).1.2 = None →
  let private := fieldsAt repo (PrivateDomainsByOrgURL orgGuid) in
  let shared := fieldsAt repo SharedDomainsURL in
  let s1 := (walkItems cb s private).1 in
  let run := ListDomainsForOrg repo orgGuid (recording cb) (s, []) in
  run.1.1.2 = upto_stop cb s private ++ upto_stop cb s1 shared
  ∧ (run.1.1.1, run.1.2) = (ListDomainsForOrg repo orgGuid cb s).1
  ∧ run.1.1.1 = (walkItems cb s1 shared).1
  ∧ SharedDomainsURL ∈ run.2.
Proof.
  intros Hok private shared s1 run. subst run.
  assert (Hs1 : (listDomains repo (PrivateDomainsByOrgURL orgGuid) cb s).1.1 = s1).
  { by rewrite listDomains_result. }
  split; [by apply ListDomainsForOrg_recording|].
  rewrite !ListDomainsForOrg_eq. cbn zeta.
  rewrite !listDomains_recording. cbn [fst snd].
  rewrite Hok, Hs1. cbn [fst snd].
  rewrite !listDomains_recording. cbn [fst snd app].
  split; [by destruct (listDomains repo SharedDomainsURL cb s1).1|].
  split; [by rewrite listDomains_result|].
  apply elem_of_app. right.
  destruct (listDomains_log repo SharedDomainsURL (recording cb)
              (s1, upto_stop cb s private)) as (n & Hlog & Hn & _).
  change (fieldsAt repo (PrivateDomainsByOrgURL orgGuid)) with private.
  rewrite Hlog.
  destruct n as [|n]; [lia|]. simpl. apply elem_of_cons. by left.
Qed.

Lemma ListDomainsForOrg_deliveries_witness :
  let p := exampleDomain "private.example.com" false "" in
  let q := exampleDomain "other.example.com" false "" in
  let x := exampleDomain "shared.example.com" true "" in
  let repo := exampleRepo (LastPage [p; q]) (LastPage [x]) (LastPage []) (LastPage []) in
  let stop : Callback unit DomainFields := λ _ _, ((), false) in
  (ListDomainsForOrg repo "my-org-guid" (recording stop) ((), [])).1.1.2 = [p; x].
Proof.
  intros p q x repo stop.
  exact (proj1 (ListDomainsForOrg_deliveries repo "my-org-guid" stop () eq_refl)).
Defined.

(** C8, counterexample to the claim for every callback and collection: when
    the second page of the private collection fails, [ListDomainsForOrg]
    returns that failure at once; a callback that always continues is
    called on the private domain [p] only, although the shared collection
    holds [x], and the shared collection is not requested. *)
Lemma ListDomainsForOrg_failure_skips_shared :
  let e := GatewayError "connection refused" in
  let p := exampleDomain "private.example.com" false "" in
  let x := exampleDomain "shared.example.com" true "" in
  let repo := exampleRepo (Page [p] (FetchError e)) (LastPage [x])
                (LastPage []) (LastPage []) in
  let continue : Callback unit DomainFields := λ _ _, ((), true) in
  let run := ListDomainsForOrg repo "my-org-guid" (recording continue) ((), []) in
  fieldsAt repo (PrivateDomainsByOrgURL "my-org-guid") = [p]
  ∧ fieldsAt repo SharedDomainsURL = [x]
  ∧ upto_stop continue () [p] ++ upto_stop continue () [x] = [p; x]
  ∧ run.1.1.2 = [p]
  ∧ run.1.1.2 ≠ upto_stop continue () [p] ++ upto_stop continue () [x]
  ∧ run.1.2 = Some e
  ∧ run.2 = [PrivateDomainsByOrgURL "my-org-guid"; PrivateDomainsByOrgURL "my-org-guid"]
  ∧ (SharedDomainsURL ∉ run.2).
Proof.
  intros e p x repo continue run.
  do 7 (split; [done|]).
  intros Hin.
  apply elem_of_cons in Hin as [Hin|Hin]; [discriminate Hin|].
  apply elem_of_cons in Hin as [Hin|Hin]; [discriminate Hin|].
  by apply elem_of_nil in Hin.
Qed.

(** ** Default selection *)

Lemma walkItems_default_private s items :
  Forall (λ d, Shared d = false) items →
  walkItems defaultDomainCallback s items = (from_option Some s (last items), true).
Proof.
  intros Hall. revert s.
  induction Hall as [|d rest Hd Hrest IH]; intros s; simpl.
  - done.
  - rewrite Hd. simpl. rewrite IH, last_cons. by destruct (last rest).
Qed.

Lemma walkItems_default_shared s items :
  Forall (λ d, Shared d = true) items →
  walkItems defaultDomainCallback s items =
    (from_option Some s (head items), bool_decide (items = [])).
Proof.
  intros Hall. destruct Hall as [|d rest Hd Hrest]; simpl.
  - done.
  - by rewrite Hd.
Qed.

Lemma upto_stop_default_private s items :
  Forall (λ d, Shared d = false) items →
  upto_stop defaultDomainCallback s items = items.
Proof.
  intros Hall. revert s.
  induction Hall as [|d rest Hd Hrest IH]; intros s; simpl.
  - done.
  - rewrite Hd. simpl. by rewrite IH.
Qed.

Lemma upto_stop_default_shared s items :
  Forall (λ d, Shared d = true) items →
  upto_stop defaultDomainCallback s items = take 1 items.
Proof.
  intros Hall. destruct Hall as [|d rest Hd Hrest]; simpl.
  - done.
  - by rewrite Hd.
Qed.

(** C2, as the code has it.  When no page fetch fails, the private
    collection holds private domains only and the shared collection shared
    domains only, [defaultDomain] returns the first shared domain of the
    shared collection; when there is no shared domain, the last private
    domain of the private collection; and when there is no domain at all,
    the zero domain with the error "Could not find a default domain".  Its
    callback is called on every private domain and on the first shared
    domain, where the walk stops. *)
Theorem defaultDomain_first_shared repo orgGuid :
  first_failure (gateway repo (PrivateDomainsByOrgURL orgGuid)) = None →
  first_failure (gateway repo SharedDomainsURL) = None →
  Forall (λ d, Shared d = false) (fieldsAt repo (PrivateDomainsByOrgURL orgGuid)) →
  Forall (λ d, Shared d = true) (fieldsAt repo SharedDomainsURL) →
  (defaultDomain repo orgGuid).1 =
    match head (fieldsAt repo SharedDomainsURL) with
    | Some d => (d, None)
    | None =>
        match last (fieldsAt repo (PrivateDomainsByOrgURL orgGuid)) with
        | Some d => (d, None)
        | None => (zeroDomainFields, Some (PlainError "Could not find a default domain"))
        end
    end
  ∧ (ListDomainsForOrg repo orgGuid (recording defaultDomainCallback) (None, [])).1.1.2 =
      fieldsAt repo (PrivateDomainsByOrgURL orgGuid)
      ++ take 1 (fieldsAt repo SharedDomainsURL).
Proof.
  intros Hpf Hsf Hprivate Hshared. split.
  - unfold defaultDomain.
    rewrite Net_bind_fst, ListDomainsForOrg_eq. cbn zeta.
    rewrite !listDomains_result, Hpf, Hsf. simpl.
    rewrite (walkItems_default_private _ _ Hprivate). simpl.
    rewrite (walkItems_default_shared _ _ Hshared). simpl.
    destruct (head (fieldsAt repo SharedDomainsURL)); simpl; [done|].
    by destruct (last (fieldsAt repo (PrivateDomainsByOrgURL orgGuid))).
  - rewrite ListDomainsForOrg_recording.
    + by rewrite upto_stop_default_private, upto_stop_default_shared.
    + rewrite listDomains_result, Hpf. simpl.
      by destruct (walkItems _ _ _).2.
Qed.

Lemma defaultDomain_first_shared_witness :
  let p := exampleDomain "private.example.com" false "" in
  let x := exampleDomain "x.example.com" true "" in
  let y := exampleDomain "y.example.com" true "" in
  let repo := exampleRepo (LastPage [p]) (Page [x] (LastPage [y])) (LastPage []) (LastPage []) in
  (defaultDomain repo "my-org-guid").1 = (x, None).
Proof.
  intros p x y repo.
  refine (proj1 (defaultDomain_first_shared repo "my-org-guid" eq_refl eq_refl _ _)).
  - repeat constructor.
  - repeat constructor.
Defined.

(** C2, counterexample to the policy as the specification words it: with
    the visible set [Shared x; Shared y] the code returns [x], the first
    shared domain, where the specification's policy returns [y]; and with
    a private domain [p] before them the code still returns [x], not [p]. *)
Lemma defaultDomain_not_selectDefault_spec :
  let p := exampleDomain "private.example.com" false "" in
  let x := exampleDomain "x.example.com" true "" in
  let y := exampleDomain "y.example.com" true "" in
  let all_shared := exampleRepo (LastPage []) (LastPage [x; y]) (LastPage []) (LastPage []) in
  let with_private := exampleRepo (LastPage [p]) (LastPage [x; y]) (LastPage []) (LastPage []) in
  (defaultDomain all_shared "my-org-guid").1 = (x, None)
  ∧ selectDefault_spec [x; y] = (y, None)
  ∧ (defaultDomain all_shared "my-org-guid").1 ≠ selectDefault_spec [x; y]
  ∧ (defaultDomain with_private "my-org-guid").1 = (x, None)
  ∧ selectDefault_spec [p; x; y] = (p, None)
  ∧ (defaultDomain with_private "my-org-guid").1 ≠ selectDefault_spec [p; x; y].
Proof. repeat split; done. Qed.

(** ** Failures of a page fetch *)

(** The listing hands a failure of either walk to its caller as it is. *)
Lemma ListDomainsForOrg_failure {S} repo orgGuid (cb : Callback S DomainFields) s e :
  always_continues cb →
  first_failure (gateway repo (PrivateDomainsByOrgURL orgGuid)) = Some e
  ∨ (first_failure (gateway repo (PrivateDomainsByOrgURL orgGuid)) = None
     ∧ first_failure (gateway repo SharedDomainsURL) = Some e) →
  (ListDomainsForOrg repo orgGuid cb s).1.2 = Some e.
Proof.
  intros Hcb Hfail. rewrite ListDomainsForOrg_eq. cbn zeta.
  rewrite !listDomains_always_continues by done. simpl.
  by destruct Hfail as [-> | [-> Hshared]].
Qed.

(** C1, at the inputs where the code departs from it.  With a gateway whose
    private-domain fetch fails, [defaultDomain] returns "Could not find a
    default domain" in place of the failure; when the shared-domain fetch
    fails after a private domain was seen, it returns that domain and no
    error at all; and with an empty org-scoped lookup and a failing
    shared-scope lookup, [FindByNameInOrg] returns a not-found error in
    place of the failure. *)
Theorem fetch_failure_replaced :
  let e := GatewayError "connection refused" in
  let p := exampleDomain "private.example.com" false "" in
  (defaultDomain
     (exampleRepo (FetchError e) (LastPage []) (LastPage []) (LastPage []))
     "my-org-guid").1
  = (zeroDomainFields, Some (PlainError "Could not find a default domain"))
  ∧ (defaultDomain
       (exampleRepo (LastPage [p]) (FetchError e) (LastPage []) (LastPage []))
       "my-org-guid").1
    = (p, None)
  ∧ (FindByNameInOrg
       (exampleRepo (LastPage []) (LastPage []) (LastPage []) (FetchError e))
       "example.com" "my-org-guid").1
    = (zeroDomainFields, Some (ModelNotFoundError "Domain" "example.com")).
Proof. repeat split; reflexivity. Qed.

(** ** The router-group index *)

Lemma walkItems_getRouterGroups index groups :
  walkItems getRouterGroupsCallback index groups =
    (foldl (λ index group, <[rgGuid group := group]> index) index groups, true).
Proof.
  revert index. induction groups as [|g groups IH]; intros index; simpl; [done|].
  apply IH.
Qed.

Lemma foldl_insert_lookup (index : gmap string RouterGroup) groups guid :
  foldl (λ index group, <[rgGuid group := group]> index) index groups !! guid =
    match last (filter (λ g, rgGuid g = guid) groups) with
    | Some g => Some g
    | None => index !! guid
    end.
Proof.
  revert index. induction groups as [|g groups IH]; intros index; simpl; [done|].
  rewrite IH, filter_cons. destruct (decide (rgGuid g = guid)) as [Heq|Hne].
  - rewrite last_cons.
    destruct (last (filter (λ g0, rgGuid g0 = guid) groups)); [done|].
    by rewrite <- Heq, lookup_insert_eq.
  - destruct (last (filter (λ g0, rgGuid g0 = guid) groups)); [done|].
    by rewrite lookup_insert_ne.
Qed.

Lemma routerGroupIndex_lookup groups guid :
  routerGroupIndex groups !! guid = last (filter (λ g, rgGuid g = guid) groups).
Proof.
  unfold routerGroupIndex. rewrite foldl_insert_lookup, lookup_empty.
  by destruct (last (filter (λ g, rgGuid g = guid) groups)).
Qed.

(** C9. The callback of [getRouterGroups] never asks to stop, so the walk
    requests every page of the router-group collection (up to a failing
    one, whose error is returned with an empty map).  When no page fails,
    the result is the index of all streamed groups and no error: looking
    up a guid gives the last streamed group that carries it, so every
    streamed group's guid is a key of the map, bound to a group with that
    guid. *)
Theorem getRouterGroups_index cmd :
  let collection := routerGroupCollection (routingApiRepo cmd) in
  let groups := all_items collection in
  always_continues getRouterGroupsCallback
  ∧ (getRouterGroups cmd).2 = replicate (page_count collection) RouterGroupsURL
  ∧ (getRouterGroups cmd).1 =
      match first_failure collection with
      | Some e => (∅, Some e)
      | None => (routerGroupIndex groups, None)
      end
  ∧ (∀ guid, routerGroupIndex groups !! guid
             = last (filter (λ g, rgGuid g = guid) groups))
  ∧ (∀ g, g ∈ groups →
          ∃ g', routerGroupIndex groups !! rgGuid g = Some g' ∧ rgGuid g' = rgGuid g).
Proof.
  intros collection groups.
  assert (Hcb : always_continues getRouterGroupsCallback) by done.
  split; [done|].
  unfold getRouterGroups, ListRouterGroups.
  rewrite Net_bind_eq, (walkPages_always_continues _ _ _ _ Hcb).
  rewrite walkItems_getRouterGroups. simpl. fold collection.
  split; [destruct (first_failure collection); simpl; by rewrite app_nil_r|].
  split; [by destruct (first_failure collection)|].
  split; [apply routerGroupIndex_lookup|].
  intros g Hg. rewrite routerGroupIndex_lookup.
  assert (Hin : g ∈ filter (λ g0, rgGuid g0 = rgGuid g) groups).
  { by apply list_elem_of_filter. }
  destruct (last (filter (λ g0, rgGuid g0 = rgGuid g) groups)) as [g'|] eqn:Hlast.
  - exists g'. split; [done|].
    apply last_Some_elem_of in Hlast. by apply list_elem_of_filter in Hlast as [? _].
  - apply last_None in Hlast. rewrite Hlast in Hin. by apply elem_of_nil in Hin.
Qed.

(** ** The table *)

Lemma foldl_add_rows {A B} (step : list B → A → list B) (keep : A → bool)
    (row : A → B) (table : list B) (l : list A) :
  (∀ table x, step table x = if keep x then table ++ [row x] else table) →
  foldl step table l = table ++ (row <$> filter (λ x, keep x = true) l).
Proof.
  intros Hstep. revert table. induction l as [|x l IH]; intros table; simpl.
  - by rewrite app_nil_r.
  - rewrite IH, Hstep, filter_cons.
    destruct (keep x); simpl; [by rewrite <- app_assoc | done].
Qed.

Lemma partitionBuffers_eq domains shared private :
  partitionBuffers domains shared private =
    (shared ++ filter (λ d, Shared d = true) domains,
     private ++ filter (λ d, Shared d = false) domains).
Proof.
  revert shared private.
  induction domains as [|d domains IH]; intros shared private; simpl.
  - by rewrite !app_nil_r.
  - rewrite !filter_cons. destruct (Shared d); simpl; rewrite IH.
    + by rewrite <- app_assoc.
    + by rewrite <- app_assoc.
Qed.

Lemma stablePartition_eq domains :
  stablePartition domains =
    filter (λ d, Shared d = true) domains ++ filter (λ d, Shared d = false) domains.
Proof. unfold stablePartition. by rewrite partitionBuffers_eq. Qed.

Lemma filter_not_shared (domains : list DomainFields) :
  filter (λ d, ¬ Shared d = true) domains = filter (λ d, Shared d = false) domains.
Proof.
  induction domains as [|d domains IH]; [done|].
  rewrite !filter_cons, IH. by destruct (Shared d).
Qed.

Lemma filter_shared_private (domains : list DomainFields) :
  filter (λ d, Shared d = true) (filter (λ d, Shared d = false) domains) = []
  ∧ filter (λ d, Shared d = false) (filter (λ d, Shared d = true) domains) = [].
Proof.
  split; induction domains as [|d domains IH]; try done; rewrite filter_cons.
  - destruct (decide (Shared d = false)); [|done].
    by rewrite filter_cons_False by congruence.
  - destruct (decide (Shared d = true)); [|done].
    by rewrite filter_cons_False by congruence.
Qed.

(** The two loops of [printDomainsTable]. *)
Lemma printDomainsTable_shared_loop routerGroups table domains :
  foldl (λ table domain,
    if Shared domain then
      if bool_decide (RouterGroupGuid domain ≠ ""%string)
      then table ++ [[Name domain; "shared"; rgType (mapIndex routerGroups (RouterGroupGuid domain))]]
      else table ++ [[Name domain; "shared"]]
    else table) table domains
  = table ++ (tableRow routerGroups <$> filter (λ d, Shared d = true) domains).
Proof.
  apply (foldl_add_rows _ Shared (tableRow routerGroups)).
  intros t d. unfold tableRow. destruct (Shared d); [|done].
  by destruct (bool_decide (RouterGroupGuid d ≠ ""%string)).
Qed.

Lemma printDomainsTable_private_loop routerGroups table domains :
  foldl (λ table domain,
    if negb (Shared domain)
    then table ++ [[Name domain; "owned"]]
    else table) table domains
  = table ++ (tableRow routerGroups <$> filter (λ d, Shared d = false) domains).
Proof.
  rewrite (foldl_add_rows _ (λ d, negb (Shared d)) (tableRow routerGroups)).
  - do 2 f_equal. apply list_filter_iff. intros d.
    destruct (Shared d); simpl; split; congruence.
  - intros t d. unfold tableRow. by destruct (Shared d).
Qed.

Lemma printDomainsTable_eq domains routerGroups :
  printDomainsTable domains routerGroups =
    ui.PrintTable ["name"; "status"; "type"]%string
      (tableRow routerGroups <$> stablePartition domains).
Proof.
  unfold printDomainsTable.
  rewrite (printDomainsTable_private_loop routerGroups).
  rewrite printDomainsTable_shared_loop.
  by rewrite stablePartition_eq, fmap_app.
Qed.

(** C7. The rows [printDomainsTable] prints are the rows of the stable
    partition of its input: the shared domains in input order followed by
    the private domains in input order.  The partition rearranges the
    input (it is a permutation of it), no private domain comes before a
    shared one in it, and its shared (private) domains are those of the
    input in the same relative order. *)
Theorem printDomainsTable_stable_partition domains routerGroups :
  let rendered := stablePartition domains in
  printDomainsTable domains routerGroups =
    ui.PrintTable ["name"; "status"; "type"]%string (tableRow routerGroups <$> rendered)
  ∧ rendered = filter (λ d, Shared d = true) domains
               ++ filter (λ d, Shared d = false) domains
  ∧ rendered ≡ₚ domains
  ∧ (∀ i j d d', rendered !! i = Some d → rendered !! j = Some d' →
       Shared d = true → Shared d' = false → i < j)
  ∧ filter (λ d, Shared d = true) rendered = filter (λ d, Shared d = true) domains
  ∧ filter (λ d, Shared d = false) rendered = filter (λ d, Shared d = false) domains.
Proof.
  intros rendered. subst rendered.
  split.
  { apply printDomainsTable_eq. }
  rewrite stablePartition_eq.
  split; [done|].
  split.
  { rewrite <- filter_not_shared. apply filter_app_complement. }
  split.
  { intros i j d d' Hi Hj Hd Hd'.
    destruct (decide (i < length (filter (λ d, Shared d = true) domains)))
      as [Hlt|Hge].
    - destruct (decide (j < length (filter (λ d, Shared d = true) domains)))
        as [Hlt'|Hge']; [|lia].
      rewrite lookup_app_l in Hj by done.
      apply list_elem_of_lookup_2, list_elem_of_filter in Hj as [Hj _]. congruence.
    - rewrite lookup_app_r in Hi by lia.
      apply list_elem_of_lookup_2, list_elem_of_filter in Hi as [Hi _]. congruence. }
  destruct (filter_shared_private domains) as [Hsp Hps].
  rewrite !filter_app, Hsp, Hps, !list_filter_filter_r by done.
  by rewrite app_nil_r.
Qed.

(** ** The ListDomains command *)

Lemma walkItems_getDomains domains populateRouterGroups items :
  walkItems getDomainsCallback (domains, populateRouterGroups) items =
    ((domains ++ items, populateRouterGroups || existsb refersToRouterGroup items), true).
Proof.
  revert domains populateRouterGroups.
  induction items as [|d items IH]; intros domains populate; simpl.
  - by rewrite app_nil_r, orb_false_r.
  - rewrite IH, <- app_assoc. simpl. unfold refersToRouterGroup.
    destruct (Shared d && bool_decide (RouterGroupGuid d ≠ ""%string)); simpl.
    + by rewrite orb_true_r.
    + done.
Qed.

Lemma getDomains_eq cmd orgGuid :
  let repo := domainRepo cmd in
  let private := fieldsAt repo (PrivateDomainsByOrgURL orgGuid) in
  let shared := fieldsAt repo SharedDomainsURL in
  let privateLog :=
    replicate (page_count (gateway repo (PrivateDomainsByOrgURL orgGuid)))
      (PrivateDomainsByOrgURL orgGuid) in
  let sharedLog :=
    replicate (page_count (gateway repo SharedDomainsURL)) SharedDomainsURL in
  getDomains cmd orgGuid =
    match first_failure (gateway repo (PrivateDomainsByOrgURL orgGuid)) with
    | Some e => (([], false, Some e), privateLog)
    | None =>
        match first_failure (gateway repo SharedDomainsURL) with
        | Some e => (([], false, Some e), privateLog ++ sharedLog)
        | None =>
            ((private ++ shared, existsb refersToRouterGroup (private ++ shared), None),
             privateLog ++ sharedLog)
        end
    end.
Proof.
  intros repo private shared privateLog sharedLog.
  unfold getDomains. rewrite Net_bind_eq, ListDomainsForOrg_eq. cbn zeta.
  assert (Hcb : always_continues getDomainsCallback) by (by intros [??] ?).
  rewrite !listDomains_always_continues by done.
  rewrite !walkItems_getDomains. cbn [fst snd]. fold repo.
  destruct (first_failure (gateway repo (PrivateDomainsByOrgURL orgGuid))); cbn [fst snd].
  - by rewrite app_nil_r.
  - rewrite walkItems_getDomains. cbn [fst snd app orb].
    destruct (first_failure (gateway repo SharedDomainsURL)); cbn [fst snd].
    + by rewrite app_nil_r.
    + by rewrite app_nil_r, existsb_app.
Qed.

Lemma getDomains_populate cmd orgGuid domains populateRouterGroups err :
  (getDomains cmd orgGuid).1 = (domains, populateRouterGroups, err) →
  populateRouterGroups = existsb refersToRouterGroup domains.
Proof.
  rewrite getDomains_eq.
  destruct (first_failure _); [by intros [= <- <- <-]|].
  destruct (first_failure _); [by intros [= <- <- <-]|].
  by intros [= <- <- <-].
Qed.

(** The validation loop of [Execute] stops at the first domain whose
    router-group reference does not resolve. *)
Lemma forRange_validation (index : gmap string RouterGroup) domains :
  forRange domains (λ domain,
    if Shared domain && bool_decide (RouterGroupGuid domain ≠ ""%string) then
      if bool_decide (is_Some (index !! RouterGroupGuid domain))
      then mret ()
      else ui.Failed (InvalidRouterGroupGuid (RouterGroupGuid domain))
    else mret ())
  = match find (dangling index) domains with
    | Some d => (None, [Failed (InvalidRouterGroupGuid (RouterGroupGuid d))])
    | None => (Some (), [])
    end.
Proof.
  induction domains as [|d domains IH]; [done|].
  cbn [forRange find]. unfold dangling at 1, refersToRouterGroup.
  destruct (Shared d && bool_decide (RouterGroupGuid d ≠ ""%string)); cbn [andb].
  - destruct (index !! RouterGroupGuid d) as [g|] eqn:Hlookup.
    + rewrite bool_decide_eq_true_2 by eauto.
      rewrite bool_decide_eq_false_2 by done.
      by rewrite Cmd_ret_bind, IH.
    + rewrite bool_decide_eq_false_2 by (by intros [? ?]).
      by rewrite bool_decide_eq_true_2.
  - by rewrite Cmd_ret_bind, IH.
Qed.

(** [Execute], step by step: what it returns and the events it leaves, by
    the outcome of each of its stages. *)
Lemma Execute_eq cmd :
  let org := config_OrganizationFields (config cmd) in
  let fetched := getDomains cmd (orgGuid org) in
  let groups := getRouterGroups cmd in
  let start :=
    Said (GettingDomainsInOrg (orgName org) (config_Username (config cmd)))
    :: (Requested <$> fetched.2) in
  let headers := ["name"; "status"; "type"]%string in
  Execute cmd =
    match fetched.1 with
    | (_, _, Some e) => (None, start ++ [Failed (FailedFetchingDomains e)])
    | (domains, populateRouterGroups, None) =>
        if bool_decide (length domains = 0) then
          (Some (), start ++ [Said NoDomainsFound])
        else if populateRouterGroups then
          match rountingApiRequirement cmd with
          | failingRequirement => (None, start ++ [Failed RoutingApiUriMissing])
          | passingRequirement =>
              match groups.1 with
              | (_, Some e) =>
                  (None, start ++ (Requested <$> groups.2)
                         ++ [Failed (FailedFetchingRouterGroups e)])
              | (index, None) =>
                  match find (dangling index) domains with
                  | Some d =>
                      (None, start ++ (Requested <$> groups.2)
                             ++ [Failed (InvalidRouterGroupGuid (RouterGroupGuid d))])
                  | None =>
                      (Some (), start ++ (Requested <$> groups.2)
                                ++ [Printed headers (tableRow index <$> stablePartition domains)])
                  end
              end
          end
        else
          (Some (), start ++ [Printed headers (tableRow ∅ <$> stablePartition domains)])
    end.
Proof.
  intros org fetched groups start headers. unfold Execute. fold org.
  rewrite Say_bind, liftNet_bind. fold fetched.
  destruct fetched.1 as [[domains populate] [e|]]; cbn [fst snd].
  { rewrite Failed_bind. cbn [fst snd]. subst start.
    by rewrite <- app_comm_cons. }
  rewrite Cmd_ret_bind.
  destruct (bool_decide (length domains = 0)); [done|].
  destruct populate.
  - destruct (rountingApiRequirement cmd); cbn [Requirement_Execute].
    2:{ by rewrite !Failed_bind. }
    rewrite Cmd_ret_bind, liftNet_bind. fold groups.
    destruct groups.1 as [index [e|]]; cbn [fst snd].
    { unfold ui.Failed. cbn [fst snd]. by rewrite Cmd_bind_None. }
    rewrite forRange_validation.
    destruct (find (dangling index) domains) as [d|].
    + rewrite Cmd_bind_None. cbn [fst snd]. by rewrite Cmd_bind_None.
    + rewrite Cmd_bind_Some. unfold mret, Cmd_ret. cbn [fst snd app].
      rewrite Cmd_bind_Some, printDomainsTable_eq. cbn [fst snd app].
      by rewrite app_nil_r.
  - by rewrite Cmd_ret_bind, printDomainsTable_eq.
Qed.

Lemma dangling_true index d :
  dangling index d = true ↔
  Shared d = true ∧ RouterGroupGuid d ≠ ""%string ∧ index !! RouterGroupGuid d = None.
Proof.
  unfold dangling, refersToRouterGroup.
  rewrite !andb_true_iff, !bool_decide_eq_true. tauto.
Qed.

Lemma find_dangling_Some index domains :
  (∃ d, d ∈ domains ∧ dangling index d = true) →
  ∃ d, find (dangling index) domains = Some d ∧ d ∈ domains ∧ dangling index d = true.
Proof.
  intros (d0 & Hin & Hd0).
  destruct (find (dangling index) domains) as [d|] eqn:Hfind.
  - exists d. apply find_some in Hfind as [Hd Hdangling].
    by rewrite list_elem_of_In.
  - apply list_elem_of_In in Hin.
    pose proof (find_none _ _ Hfind _ Hin). congruence.
Qed.

Lemma Failed_elem_of_requested message (log : list Path) :
  Failed message ∉ Requested <$> log.
Proof. intros (p & Heq & _)%list_elem_of_fmap. discriminate. Qed.

Lemma Printed_elem_of_requested headers rows (log : list Path) :
  Printed headers rows ∉ Requested <$> log.
Proof. intros (p & Heq & _)%list_elem_of_fmap. discriminate. Qed.

Lemma Requested_elem_of path (log : list Path) :
  Requested path ∈ Requested <$> log ↔ path ∈ log.
Proof.
  rewrite list_elem_of_fmap. split; [by intros (p & [= ->] & ?) | eauto].
Qed.

(** Case analysis on the membership of an event in the events of a run;
    page requests are neither failures nor tables. *)
Ltac event_cases H :=
  repeat match type of H with
  | _ ∈ _ ++ _ => apply elem_of_app in H as [H|H]
  | _ ∈ _ :: _ => apply elem_of_cons in H as [H|H]
  | _ ∈ [] => by apply elem_of_nil in H
  | Failed _ ∈ Requested <$> _ => by apply Failed_elem_of_requested in H
  | Printed _ _ ∈ Requested <$> _ => by apply Printed_elem_of_requested in H
  end.

(** C3. Let the domain walk succeed with the collected list [domains], the
    routing-API requirement pass and the router-group fetch succeed with
    the index [index].  If some collected domain is shared with a non-empty
    router-group guid that the index lacks, [Execute] panics after
    reporting "Invalid router group guid" for the guid of such a domain
    (the first in stream order), reports no other failure and prints no
    table.  Conversely, if every such reference resolves, [Execute]
    completes and reports no failure at all. *)
Theorem Execute_validation_gate cmd domains populateRouterGroups index :
  (getDomains cmd (orgGuid (config_OrganizationFields (config cmd)))).1
    = (domains, populateRouterGroups, None) →
  rountingApiRequirement cmd = passingRequirement →
  (getRouterGroups cmd).1 = (index, None) →
  ((∃ d, d ∈ domains ∧ Shared d = true ∧ RouterGroupGuid d ≠ ""%string
         ∧ index !! RouterGroupGuid d = None) →
   ∃ d, find (dangling index) domains = Some d
        ∧ d ∈ domains ∧ Shared d = true ∧ RouterGroupGuid d ≠ ""%string
        ∧ index !! RouterGroupGuid d = None
        ∧ (Execute cmd).1 = None
        ∧ last (Execute cmd).2 = Some (Failed (InvalidRouterGroupGuid (RouterGroupGuid d)))
        ∧ (∀ message, Failed message ∈ (Execute cmd).2 →
             message = InvalidRouterGroupGuid (RouterGroupGuid d))
        ∧ (∀ headers rows, Printed headers rows ∉ (Execute cmd).2))
  ∧ ((∀ d, d ∈ domains → Shared d = true → RouterGroupGuid d ≠ ""%string →
           is_Some (index !! RouterGroupGuid d)) →
     (Execute cmd).1 = Some ()
     ∧ (∀ message, Failed message ∉ (Execute cmd).2)).
Proof.
  intros Hdomains Hrequirement Hgroups.
  pose proof (getDomains_populate _ _ _ _ _ Hdomains) as Hpopulate.
  rewrite Execute_eq. cbn zeta. rewrite Hdomains, Hrequirement, Hgroups.
  split.
  - intros (d0 & Hin & Hshared & Hguid & Hlookup).
    assert (Hd0 : dangling index d0 = true) by by apply dangling_true.
    destruct (find_dangling_Some index domains) as (d & Hfind & Hd & Hdangling);
      [by exists d0|].
    exists d. apply dangling_true in Hdangling as (? & ? & ?).
    do 5 (split; [done|]).
    assert (Hpop : populateRouterGroups = true).
    { rewrite Hpopulate. apply existsb_exists. exists d0.
      split; [by apply list_elem_of_In|].
      unfold refersToRouterGroup. rewrite Hshared. by apply bool_decide_eq_true. }
    rewrite bool_decide_eq_false_2, Hpop, Hfind; cbn [fst snd].
    2:{ intros Hlen. apply nil_length_inv in Hlen. subst domains.
        by apply elem_of_nil in Hin. }
    split; [done|]. split.
    { by rewrite !app_assoc, last_snoc. }
    split.
    + intros message Hevent. event_cases Hevent; congruence.
    + intros headers rows Hevent. event_cases Hevent; congruence.
  - intros Hresolved.
    assert (Hfind : find (dangling index) domains = None).
    { destruct (find (dangling index) domains) as [d|] eqn:Hfind; [|done].
      apply find_some in Hfind as [Hd (? & ? & Hnone)%dangling_true].
      apply list_elem_of_In in Hd.
      destruct (Hresolved d) as [g Hg]; try done. congruence. }
    rewrite Hfind.
    destruct (bool_decide (length domains = 0)); [|destruct populateRouterGroups];
      cbn [fst snd]; (split; [done|]); intros message Hevent;
      event_cases Hevent; congruence.
Qed.

Lemma Execute_validation_gate_witness :
  let d := exampleDomain "shared.example.com" true "router-group-guid" in
  let cmd := exampleCmd (LastPage []) (LastPage [d]) (LastPage []) passingRequirement in
  (Execute cmd).1 = None
  ∧ last (Execute cmd).2 = Some (Failed (InvalidRouterGroupGuid "router-group-guid")).
Proof.
  intros d cmd.
  destruct (Execute_validation_gate cmd [d] true ∅ eq_refl eq_refl eq_refl)
    as [Hgate _].
  destruct Hgate as (d' & Hfind & _ & _ & _ & _ & Hpanic & Hlast & _).
  - exists d. repeat split; [left | discriminate].
  - injection Hfind as <-. split; [exact Hpanic | exact Hlast].
Defined.

(** C10. When both walks of the domain collections succeed and deliver no
    domain, [Execute] completes: after the opening line and the page
    requests for the two domain collections it says "No domains found" and
    nothing else.  It reports no failure, requests no router groups and
    prints no table. *)
Theorem Execute_no_domains cmd :
  let org := config_OrganizationFields (config cmd) in
  let repo := domainRepo cmd in
  first_failure (gateway repo (PrivateDomainsByOrgURL (orgGuid org))) = None →
  first_failure (gateway repo SharedDomainsURL) = None →
  fieldsAt repo (PrivateDomainsByOrgURL (orgGuid org)) = [] →
  fieldsAt repo SharedDomainsURL = [] →
  Execute cmd =
    (Some (),
     Said (GettingDomainsInOrg (orgName org) (config_Username (config cmd)))
     :: (Requested <$>
           replicate (page_count (gateway repo (PrivateDomainsByOrgURL (orgGuid org))))
             (PrivateDomainsByOrgURL (orgGuid org))
           ++ replicate (page_count (gateway repo SharedDomainsURL)) SharedDomainsURL)
     ++ [Said NoDomainsFound])
  ∧ (∀ message, Failed message ∉ (Execute cmd).2)
  ∧ (Requested RouterGroupsURL ∉ (Execute cmd).2)
  ∧ (∀ headers rows, Printed headers rows ∉ (Execute cmd).2).
Proof.
  intros org repo Hprivate Hshared Hnone_private Hnone_shared.
  assert (Heq : Execute cmd =
    (Some (),
     Said (GettingDomainsInOrg (orgName org) (config_Username (config cmd)))
     :: (Requested <$>
           replicate (page_count (gateway repo (PrivateDomainsByOrgURL (orgGuid org))))
             (PrivateDomainsByOrgURL (orgGuid org))
           ++ replicate (page_count (gateway repo SharedDomainsURL)) SharedDomainsURL)
     ++ [Said NoDomainsFound])).
  { rewrite Execute_eq. cbn zeta. fold org. rewrite getDomains_eq. cbn zeta.
    fold repo. by rewrite Hprivate, Hshared, Hnone_private, Hnone_shared. }
  split; [done|]. rewrite Heq. cbn [snd].
  split; [|split].
  - intros message Hevent. event_cases Hevent; congruence.
  - intros Hevent. event_cases Hevent; try congruence.
    apply Requested_elem_of in Hevent.
    apply elem_of_app in Hevent as [Hevent|Hevent];
      by apply elem_of_replicate_inv in Hevent.
  - intros headers rows Hevent. event_cases Hevent; congruence.
Qed.

Lemma Execute_no_domains_witness :
  let cmd := exampleCmd (Page [] (LastPage [])) (LastPage []) 
               (FetchError (GatewayError "unreachable")) failingRequirement in
  Execute cmd =
    (Some (),
     [Said (GettingDomainsInOrg "my-org" "my-user");
      Requested (PrivateDomainsByOrgURL "my-org-guid");
      Requested (PrivateDomainsByOrgURL "my-org-guid");
      Requested SharedDomainsURL;
      Said NoDomainsFound]).
Proof.
  intros cmd.
  exact (proj1 (Execute_no_domains cmd eq_refl eq_refl eq_refl eq_refl)).
Defined.

(** * Further properties of the repository and of the command *)

(** ** Single lookups *)

Lemma walkPages_findOne_log {A} (f : A → DomainFields) path (c : Collection A) :
  (walkPages path (λ s r, findOneCallback s (f r)) (false, zeroDomainFields) c).2 =
    replicate (pages_to_first_item c) path.
Proof.
  induction c as [e|items|items next IH].
  - done.
  - done.
  - rewrite walkPages_Page. destruct items as [|x items]; simpl; [|done].
    by rewrite IH.
Qed.

Lemma findOneWithPath_log_eq repo path name :
  (findOneWithPath repo path name).2 =
    replicate (pages_to_first_item (gateway repo path)) path.
Proof.
  unfold findOneWithPath, listDomains, ListPaginatedResources.
  rewrite Net_bind_snd, walkPages_findOne_log.
  match goal with |- context [walkPages ?p ?cb ?s ?c] =>
    destruct (walkPages p cb s c).1 as [[found domain] [e|]] end; simpl.
  - by rewrite app_nil_r.
  - destruct found; simpl; by rewrite app_nil_r.
Qed.

Lemma pages_to_first_item_bounds {A} (c : Collection A) :
  1 ≤ pages_to_first_item c ≤ page_count c.
Proof.
  induction c as [e|items|items next IH]; simpl; [lia | lia |].
  destruct items; lia.
Qed.

(** X1. [findOneWithPath] returns the first record of its collection in
    stream order and no error; when the collection is exhausted without a
    record it returns a not-found error for kind "Domain" and the name
    asked for; when a page fails before any record it returns that
    failure.  With an error the domain returned is always the zero value. *)
Theorem findOneWithPath_outcome repo path name :
  (findOneWithPath repo path name).1 =
    match first_item (gateway repo path) with
    | inl e => (zeroDomainFields, Some e)
    | inr None => (zeroDomainFields, Some (ModelNotFoundError "Domain" name))
    | inr (Some r) => (ToFields repo r, None)
    end
  ∧ ((findOneWithPath repo path name).1.2 ≠ None →
     (findOneWithPath repo path name).1.1 = zeroDomainFields).
Proof.
  rewrite findOneWithPath_result.
  split; [done|].
  by destruct (first_item (gateway repo path)) as [e|[r|]].
Qed.

(** X2. [findOneWithPath] stops at the first record: it requests its own
    locator only, once per page up to the first page that holds a record
    (or fails, or is the last), never more than the collection has pages;
    when the first page holds a record it issues a single request. *)
Theorem findOneWithPath_early_stop repo path name :
  (findOneWithPath repo path name).2 =
    replicate (pages_to_first_item (gateway repo path)) path
  ∧ 1 ≤ length (findOneWithPath repo path name).2 ≤ page_count (gateway repo path)
  ∧ (∀ x items next, gateway repo path = Page (x :: items) next →
       (findOneWithPath repo path name).2 = [path]).
Proof.
  rewrite findOneWithPath_log_eq, length_replicate.
  split; [done|]. split; [apply pages_to_first_item_bounds|].
  by intros x items next ->.
Qed.

(** X3. [FindSharedByName] and [FindPrivateByName] hand back the first
    record of their own name-filtered locator as it is, whatever its
    [Shared] flag or owner, and they request no other locator. *)
Theorem FindSharedByName_FindPrivateByName_unvalidated repo name :
  (∀ r, first_item (gateway repo (SharedDomainURL name)) = inr (Some r) →
        (FindSharedByName repo name).1 = (ToFields repo r, None))
  ∧ (∀ r, first_item (gateway repo (PrivateDomainURL name)) = inr (Some r) →
          (FindPrivateByName repo name).1 = (ToFields repo r, None))
  ∧ (∀ p, p ∈ (FindSharedByName repo name).2 → p = SharedDomainURL name)
  ∧ (∀ p, p ∈ (FindPrivateByName repo name).2 → p = PrivateDomainURL name).
Proof.
  unfold FindSharedByName, FindPrivateByName.
  split; [|split; [|split]].
  - intros r Hr. by rewrite findOneWithPath_result, Hr.
  - intros r Hr. by rewrite findOneWithPath_result, Hr.
  - intros p Hp. rewrite findOneWithPath_log_eq in Hp.
    by apply elem_of_replicate_inv in Hp.
  - intros p Hp. rewrite findOneWithPath_log_eq in Hp.
    by apply elem_of_replicate_inv in Hp.
Qed.

(** ** Resolution in an organization *)

Lemma FindByNameInOrg_log repo name orgGuid :
  (FindByNameInOrg repo name orgGuid).2 =
    replicate (pages_to_first_item (gateway repo (OrgDomainURL orgGuid name)))
      (OrgDomainURL orgGuid name)
    ++ match (findOneWithPath repo (OrgDomainURL orgGuid name) name).1.2 with
       | Some (ModelNotFoundError _ _) =>
           replicate (pages_to_first_item (gateway repo (SharedDomainURL name)))
             (SharedDomainURL name)
       | _ => []
       end.
Proof.
  unfold FindByNameInOrg, FindSharedByName.
  rewrite Net_bind_snd, findOneWithPath_log_eq. f_equal.
  destruct (findOneWithPath repo (OrgDomainURL orgGuid name) name).1
    as [domain [[modelType modelName|message|message]|]]; cbn [fst snd].
  - rewrite !Net_bind_snd, !Net_bind_fst, findOneWithPath_log_eq.
    destruct (findOneWithPath repo (SharedDomainURL name) name).1 as [found [e|]];
      destruct (negb (Shared found)); simpl; by rewrite ?app_nil_r.
  - done.
  - done.
  - done.
Qed.

(** X4. Whatever [FindByNameInOrg] returns without an error is a record a
    lookup delivered: the first record of the org-scoped lookup, or, when
    that lookup delivered none, the first record of the shared-scope lookup
    and then one whose [Shared] flag is set.  Whenever it returns an error,
    the domain returned is the zero value. *)
Theorem FindByNameInOrg_sound repo name orgGuid :
  match (FindByNameInOrg repo name orgGuid).1 with
  | (d, None) =>
      (∃ r, first_item (gateway repo (OrgDomainURL orgGuid name)) = inr (Some r)
            ∧ d = ToFields repo r)
      ∨ ((∀ r, first_item (gateway repo (OrgDomainURL orgGuid name)) ≠ inr (Some r))
         ∧ ∃ r, first_item (gateway repo (SharedDomainURL name)) = inr (Some r)
                ∧ d = ToFields repo r ∧ Shared d = true)
  | (d, Some e) => d = zeroDomainFields
  end.
Proof.
  unfold FindByNameInOrg, FindSharedByName.
  rewrite Net_bind_fst, findOneWithPath_result.
  destruct (first_item (gateway repo (OrgDomainURL orgGuid name)))
    as [[modelType modelName|message|message]|[r|]] eqn:Horg; cbn [fst snd].
  - rewrite !Net_bind_fst, findOneWithPath_result.
    destruct (first_item (gateway repo (SharedDomainURL name))) as [e|[r|]]; simpl.
    + done.
    + destruct (Shared (ToFields repo r)) eqn:Hshared; simpl; [|done].
      right. split; [done|]. by exists r.
    + done.
  - done.
  - done.
  - left. by exists r.
  - unfold NewModelNotFoundError. rewrite !Net_bind_fst, findOneWithPath_result.
    destruct (first_item (gateway repo (SharedDomainURL name))) as [e|[r|]]; simpl.
    + done.
    + destruct (Shared (ToFields repo r)) eqn:Hshared; simpl; [|done].
      right. split; [done|]. by exists r.
    + done.
Qed.

(** X5. [FindByNameInOrg] consults the shared-scope locator exactly when
    the org-scoped lookup came back with a not-found error; in every other
    case (a record found, or another failure) all its requests go to the
    org-scoped locator.  The org-scoped requests always come first. *)
Theorem FindByNameInOrg_fallback_requested repo name orgGuid :
  (SharedDomainURL name ∈ (FindByNameInOrg repo name orgGuid).2 ↔
   ∃ modelType modelName,
     (findOneWithPath repo (OrgDomainURL orgGuid name) name).1.2
       = Some (ModelNotFoundError modelType modelName))
  ∧ head (FindByNameInOrg repo name orgGuid).2 = Some (OrgDomainURL orgGuid name)
  ∧ (∀ p, p ∈ (FindByNameInOrg repo name orgGuid).2 →
          p = OrgDomainURL orgGuid name ∨ p = SharedDomainURL name).
Proof.
  rewrite FindByNameInOrg_log.
  pose proof (pages_to_first_item_bounds (gateway repo (OrgDomainURL orgGuid name)))
    as [Horg _].
  pose proof (pages_to_first_item_bounds (gateway repo (SharedDomainURL name)))
    as [Hshared _].
  destruct (pages_to_first_item (gateway repo (OrgDomainURL orgGuid name)))
    as [|n]; [lia|].
  destruct (pages_to_first_item (gateway repo (SharedDomainURL name)))
    as [|m]; [lia|].
  split; [|split; [done|]].
  - rewrite elem_of_app. split.
    + intros [Hin|Hin]; [by apply elem_of_replicate_inv in Hin|].
      destruct (findOneWithPath repo (OrgDomainURL orgGuid name) name).1.2
        as [[modelType modelName|message|message]|];
        [by eauto | | |]; by apply elem_of_nil in Hin.
    + intros (modelType & modelName & ->). right. simpl. by left.
  - intros p [Hin|Hin]%elem_of_app.
    + left. by apply elem_of_replicate_inv in Hin.
    + destruct (findOneWithPath repo (OrgDomainURL orgGuid name) name).1.2
        as [[modelType modelName|message|message]|];
        [right; by apply elem_of_replicate_inv in Hin | | |];
        by apply elem_of_nil in Hin.
Qed.

(** ** FirstOrDefault *)

Lemma defaultDomain_shape repo orgGuid :
  (defaultDomain repo orgGuid).1.2 ≠ None →
  (defaultDomain repo orgGuid).1.1 = zeroDomainFields.
Proof.
  unfold defaultDomain. rewrite Net_bind_fst.
  by destruct (ListDomainsForOrg repo orgGuid defaultDomainCallback None).1
    as [[d|] err].
Qed.

Lemma FindByNameInOrg_shape repo name orgGuid :
  (FindByNameInOrg repo name orgGuid).1.2 ≠ None →
  (FindByNameInOrg repo name orgGuid).1.1 = zeroDomainFields.
Proof.
  unfold FindByNameInOrg. rewrite Net_bind_fst.
  set (looked := (findOneWithPath repo (OrgDomainURL orgGuid name) name).1).
  destruct looked as [domain [[modelType modelName|message|message]|]];
    rewrite Net_bind_fst; try done.
  unfold FindSharedByName. rewrite Net_bind_fst.
  destruct (findOneWithPath repo (SharedDomainURL name) name).1 as [found [e|]];
    by destruct (negb (Shared found)).
Qed.

Lemma FirstOrDefault_wrap (m : Net (DomainFields * option error)) :
  (m.1.2 ≠ None → m.1.1 = zeroDomainFields) →
  ('(domain, err) ← m;
   match err with
   | Some e => mret (zeroDomainFields, Some e)
   | None => mret (domain, None)
   end) = m.
Proof.
  intros Hshape. rewrite Net_bind_eq.
  destruct m as [[d [e|]] log]; simpl in *.
  - rewrite Hshape by done. by rewrite app_nil_r.
  - by rewrite app_nil_r.
Qed.

(** X6. [FirstOrDefault] adds nothing to the function it delegates to:
    without a name it returns what [defaultDomain] returns, with a name what
    [FindByNameInOrg] returns for it, result and requests alike (both
    already return the zero domain with every error). *)
Theorem FirstOrDefault_delegates repo orgGuid :
  FirstOrDefault repo orgGuid None = defaultDomain repo orgGuid
  ∧ (∀ name, FirstOrDefault repo orgGuid (Some name) = FindByNameInOrg repo name orgGuid).
Proof.
  split.
  - unfold FirstOrDefault. apply FirstOrDefault_wrap, defaultDomain_shape.
  - intros name. unfold FirstOrDefault.
    apply FirstOrDefault_wrap, FindByNameInOrg_shape.
Qed.

(** ** Default selection, for arbitrary collections *)

Lemma walkItems_default_find s items d :
  find Shared items = Some d →
  walkItems defaultDomainCallback s items = (Some d, false).
Proof.
  revert s. induction items as [|x items IH]; intros s; simpl; [done|].
  destruct (Shared x) eqn:Hx; simpl.
  - by intros [= ->].
  - apply IH.
Qed.

Lemma walkItems_default_state s items :
  (items = [] ∧ (walkItems defaultDomainCallback s items).1 = s)
  ∨ ∃ d, d ∈ items ∧ (walkItems defaultDomainCallback s items).1 = Some d.
Proof.
  revert s. induction items as [|x items IH]; intros s; simpl; [by left|].
  right. destruct (Shared x); simpl.
  - exists x. split; [by left | done].
  - destruct (IH (Some x)) as [[-> Hstate] | (d & Hd & Hstate)].
    + exists x. split; [by left | done].
    + exists d. split; [by right | done].
Qed.

(** X7. When the walk of the private collection returns no error (it
    meets no failing page before it ends or stops) and the shared
    collection delivers a domain whose [Shared] flag is set,
    [defaultDomain] returns the first such domain of the shared collection
    and no error, whatever the private collection holds and whatever
    follows that domain (a later failing page included). *)
Theorem defaultDomain_stops_at_shared repo orgGuid d :
  (listDomains repo (PrivateDomainsByOrgURL orgGuid) defaultDomainCallback None).1.2
    = None →
  find Shared (fieldsAt repo SharedDomainsURL) = Some d →
  (defaultDomain repo orgGuid).1 = (d, None).
Proof.
  intros Hprivate Hfind. unfold defaultDomain.
  rewrite Net_bind_fst, ListDomainsForOrg_eq. cbn zeta.
  rewrite Hprivate, listDomains_result.
  by rewrite (walkItems_default_find _ _ _ Hfind).
Qed.

Lemma defaultDomain_stops_at_shared_witness :
  let s := exampleDomain "misplaced.example.com" true "" in
  let q := exampleDomain "unshared.example.com" false "" in
  let x := exampleDomain "x.example.com" true "" in
  let repo := exampleRepo (Page [s] (FetchError (GatewayError "unreachable")))
                (Page [q; x] (FetchError (GatewayError "unreachable")))
                (LastPage []) (LastPage []) in
  (defaultDomain repo "my-org-guid").1 = (x, None).
Proof.
  intros s q x repo.
  exact (defaultDomain_stops_at_shared repo "my-org-guid" x eq_refl eq_refl).
Defined.

(** X8. When no page of either collection fails, [defaultDomain] fails
    only if neither collection delivers a domain, and then with the zero
    domain and the error "Could not find a default domain"; a domain it
    returns without error is one that the private or the shared collection
    delivered. *)
Theorem defaultDomain_error_iff_empty repo orgGuid :
  first_failure (gateway repo (PrivateDomainsByOrgURL orgGuid)) = None →
  first_failure (gateway repo SharedDomainsURL) = None →
  match (defaultDomain repo orgGuid).1 with
  | (d, None) =>
      d ∈ fieldsAt repo (PrivateDomainsByOrgURL orgGuid) ++ fieldsAt repo SharedDomainsURL
  | (d, Some e) =>
      d = zeroDomainFields
      ∧ e = PlainError "Could not find a default domain"
      ∧ fieldsAt repo (PrivateDomainsByOrgURL orgGuid) = []
      ∧ fieldsAt repo SharedDomainsURL = []
  end.
Proof.
  intros Hprivate Hshared. unfold defaultDomain.
  rewrite Net_bind_fst, ListDomainsForOrg_eq. cbn zeta.
  rewrite !listDomains_result, Hprivate. cbn [fst snd].
  assert (Hnone : ∀ b : bool, (if b then None else None) = @None error)
    by by intros [].
  rewrite Hnone. rewrite ?listDomains_result, Hshared. cbn [fst snd].
  destruct (walkItems_default_state None (fieldsAt repo (PrivateDomainsByOrgURL orgGuid)))
    as [[Hp ->] | (d1 & Hd1 & ->)].
  - destruct (walkItems_default_state None (fieldsAt repo SharedDomainsURL))
      as [[Hs ->] | (d2 & Hd2 & ->)]; simpl.
    + done.
    + apply elem_of_app. by right.
  - destruct (walkItems_default_state (Some d1) (fieldsAt repo SharedDomainsURL))
      as [[Hs ->] | (d2 & Hd2 & ->)]; simpl.
    + apply elem_of_app. by left.
    + apply elem_of_app. by right.
Qed.

Lemma defaultDomain_error_iff_empty_witness :
  let repo := exampleRepo (Page [] (LastPage [])) (LastPage []) (LastPage []) (LastPage []) in
  (defaultDomain repo "my-org-guid").1
  = (zeroDomainFields, Some (PlainError "Could not find a default domain")).
Proof.
  intros repo.
  pose proof (defaultDomain_error_iff_empty repo "my-org-guid" eq_refl eq_refl) as H.
  destruct (defaultDomain repo "my-org-guid").1 as [d [e|]] eqn:Hrun.
  - destruct H as (-> & -> & _). reflexivity.
  - discriminate Hrun.
Defined.

(** ** The two walks of a listing *)

(** X9. When the walk of the private collection returns an error,
    [ListDomainsForOrg] returns that error with the state the callback had
    reached, and the shared collection is not requested at all. *)
Theorem ListDomainsForOrg_private_failure {S} repo orgGuid
    (cb : Callback S DomainFields) s e :
  (listDomains repo (PrivateDomainsByOrgURL orgGuid) cb s).1.2 = Some e →
  ListDomainsForOrg repo orgGuid cb s
    = listDomains repo (PrivateDomainsByOrgURL orgGuid) cb s
  ∧ (ListDomainsForOrg repo orgGuid cb s).1.2 = Some e
  ∧ (SharedDomainsURL ∉ (ListDomainsForOrg repo orgGuid cb s).2).
Proof.
  intros Hfail.
  assert (Heq : ListDomainsForOrg repo orgGuid cb s
                = listDomains repo (PrivateDomainsByOrgURL orgGuid) cb s).
  { rewrite ListDomainsForOrg_eq. cbn zeta. rewrite Hfail.
    by destruct (listDomains repo (PrivateDomainsByOrgURL orgGuid) cb s). }
  rewrite Heq. split; [done|]. split; [done|].
  destruct (listDomains_log repo (PrivateDomainsByOrgURL orgGuid) cb s)
    as (n & -> & _).
  by intros Hin%elem_of_replicate_inv.
Qed.

Lemma ListDomainsForOrg_private_failure_witness :
  let p := exampleDomain "private.example.com" false "" in
  let x := exampleDomain "x.example.com" true "" in
  let repo := exampleRepo (Page [p] (FetchError (GatewayError "unreachable")))
                (LastPage [x]) (LastPage []) (LastPage []) in
  (ListDomainsForOrg repo "my-org-guid" getDomainsCallback ([], false)).1
  = (([p], false), Some (GatewayError "unreachable"))
  ∧ (SharedDomainsURL ∉ (ListDomainsForOrg repo "my-org-guid" getDomainsCallback ([], false)).2).
Proof.
  intros p x repo.
  destruct (ListDomainsForOrg_private_failure repo "my-org-guid" getDomainsCallback
              ([], false) (GatewayError "unreachable") eq_refl) as (Heq & _ & Hlog).
  split; [by rewrite Heq | exact Hlog].
Defined.

(** ** Collecting the domains *)

Lemma existsb_refersToRouterGroup domains :
  existsb refersToRouterGroup domains = true ↔
  ∃ d, d ∈ domains ∧ Shared d = true ∧ RouterGroupGuid d ≠ ""%string.
Proof.
  rewrite existsb_exists. unfold refersToRouterGroup. split.
  - intros (d & Hin%list_elem_of_In & [Hshared Hguid%bool_decide_eq_true]%andb_true_iff).
    by exists d.
  - intros (d & Hin%list_elem_of_In & Hshared & Hguid).
    exists d. split; [done|]. rewrite Hshared. by apply bool_decide_eq_true.
Qed.

Lemma getDomains_log_paths cmd orgGuid p :
  p ∈ (getDomains cmd orgGuid).2 →
  p = PrivateDomainsByOrgURL orgGuid ∨ p = SharedDomainsURL.
Proof.
  rewrite getDomains_eq. cbn zeta.
  destruct (first_failure (gateway (domainRepo cmd) (PrivateDomainsByOrgURL orgGuid)));
    [|destruct (first_failure (gateway (domainRepo cmd) SharedDomainsURL))];
    cbn [snd]; rewrite ?elem_of_app;
    intros Hin; destruct_or?; apply elem_of_replicate_inv in Hin; auto.
Qed.

(** X10. [getDomains] is all or nothing.  When both walks succeed it
    returns the domains of the private collection followed by those of the
    shared collection, in stream order, with the flag set exactly when one
    of them is shared and carries a router-group guid.  When a walk fails
    it returns that failure with an empty list and a cleared flag: what the
    callback had collected before the failure is dropped. *)
Theorem getDomains_all_or_nothing cmd orgGuid :
  let repo := domainRepo cmd in
  match (getDomains cmd orgGuid).1 with
  | (domains, populateRouterGroups, None) =>
      first_failure (gateway repo (PrivateDomainsByOrgURL orgGuid)) = None
      ∧ first_failure (gateway repo SharedDomainsURL) = None
      ∧ domains = fieldsAt repo (PrivateDomainsByOrgURL orgGuid)
                  ++ fieldsAt repo SharedDomainsURL
      ∧ (populateRouterGroups = true ↔
         ∃ d, d ∈ domains ∧ Shared d = true ∧ RouterGroupGuid d ≠ ""%string)
  | (domains, populateRouterGroups, Some e) =>
      domains = [] ∧ populateRouterGroups = false
      ∧ (first_failure (gateway repo (PrivateDomainsByOrgURL orgGuid)) = Some e
         ∨ (first_failure (gateway repo (PrivateDomainsByOrgURL orgGuid)) = None
            ∧ first_failure (gateway repo SharedDomainsURL) = Some e))
  end.
Proof.
  intros repo. rewrite getDomains_eq. cbn zeta. fold repo.
  destruct (first_failure (gateway repo (PrivateDomainsByOrgURL orgGuid))) as [e|];
    cbn [fst]; [by auto|].
  destruct (first_failure (gateway repo SharedDomainsURL)) as [e|];
    cbn [fst]; [by auto|].
  do 3 (split; [done|]). apply existsb_refersToRouterGroup.
Qed.

(** ** Outcomes of the command *)

Ltac outcome_cases H :=
  repeat match type of H with
  | _ ∈ _ ++ _ => apply elem_of_app in H as [H|H]
  | _ ∈ _ :: _ => apply elem_of_cons in H as [H|H]
  | _ ∈ [] => by apply elem_of_nil in H
  | _ ∈ Requested <$> _ =>
      apply list_elem_of_fmap in H as (? & H & ?); try discriminate H
  end.

Lemma requestsOf_requested (log : list Path) : requestsOf (Requested <$> log) = log.
Proof.
  unfold requestsOf. induction log as [|p log IH]; [done|].
  simpl in *. by f_equal.
Qed.

(** X11. When [getDomains] returns an error, [Execute] panics after
    reporting "Failed fetching domains" with that error.  It reports
    nothing else: no other failure, no "No domains found", no table, and
    the router groups are not requested. *)
Theorem Execute_domain_fetch_failure cmd e :
  (getDomains cmd (orgGuid (config_OrganizationFields (config cmd)))).1.2 = Some e →
  (Execute cmd).1 = None
  ∧ last (Execute cmd).2 = Some (Failed (FailedFetchingDomains e))
  ∧ (∀ message, Failed message ∈ (Execute cmd).2 → message = FailedFetchingDomains e)
  ∧ (Said NoDomainsFound ∉ (Execute cmd).2)
  ∧ (∀ headers rows, Printed headers rows ∉ (Execute cmd).2)
  ∧ (Requested RouterGroupsURL ∉ (Execute cmd).2).
Proof.
  intros Hfail. rewrite Execute_eq. cbn zeta.
  pose proof (getDomains_log_paths cmd (orgGuid (config_OrganizationFields (config cmd))))
    as Hpaths.
  destruct (getDomains cmd (orgGuid (config_OrganizationFields (config cmd))))
    as [[[domains populate] err] log].
  cbn [fst snd] in *. subst err. cbn [fst snd].
  split; [done|]. split; [by rewrite last_snoc|].
  split; [|split; [|split]].
  - intros message Hevent. outcome_cases Hevent; congruence.
  - intros Hevent. outcome_cases Hevent; congruence.
  - intros headers rows Hevent. outcome_cases Hevent; congruence.
  - intros Hevent. outcome_cases Hevent; try congruence.
    match goal with Heq : Requested _ = Requested _ |- _ => injection Heq as <- end.
    match goal with Hin : RouterGroupsURL ∈ log |- _ =>
      by destruct (Hpaths _ Hin) end.
Qed.

Lemma Execute_domain_fetch_failure_witness :
  let x := exampleDomain "x.example.com" true "router-group-guid" in
  let cmd := exampleCmd (LastPage [x]) (FetchError (GatewayError "unreachable"))
               (LastPage []) passingRequirement in
  (Execute cmd).1 = None
  ∧ last (Execute cmd).2 = Some (Failed (FailedFetchingDomains (GatewayError "unreachable"))).
Proof.
  intros x cmd.
  destruct (Execute_domain_fetch_failure cmd (GatewayError "unreachable") eq_refl)
    as (Hpanic & Hlast & _).
  split; [exact Hpanic | exact Hlast].
Defined.

Lemma tableRow_no_reference index1 index2 d :
  refersToRouterGroup d = false → tableRow index1 d = tableRow index2 d.
Proof.
  unfold refersToRouterGroup, tableRow. destruct (Shared d); [|done].
  simpl. by intros ->.
Qed.

Lemma stablePartition_elem_of d domains :
  d ∈ stablePartition domains ↔ d ∈ domains.
Proof.
  rewrite stablePartition_eq, elem_of_app, !list_elem_of_filter.
  destruct (Shared d); intuition congruence.
Qed.

Lemma no_reference_populate domains :
  (∀ d, d ∈ domains → Shared d = true → RouterGroupGuid d = ""%string) →
  existsb refersToRouterGroup domains = false.
Proof.
  intros Hnone. apply not_true_is_false.
  intros (d & Hin & Hshared & Hguid)%existsb_refersToRouterGroup.
  by apply Hguid, Hnone.
Qed.

(** X12. When the collected list is not empty and none of its shared
    domains carries a router-group guid, [Execute] prints the table
    straight away: it does not execute the routing-API requirement and
    does not request the router groups, so its whole run is the same
    whatever that requirement and the routing API are, and every row has
    the two columns name and status. *)
Theorem Execute_without_router_groups cmd domains populateRouterGroups :
  (getDomains cmd (orgGuid (config_OrganizationFields (config cmd)))).1
    = (domains, populateRouterGroups, None) →
  domains ≠ [] →
  (∀ d, d ∈ domains → Shared d = true → RouterGroupGuid d = ""%string) →
  Execute cmd =
    (Some (),
     Said (GettingDomainsInOrg (orgName (config_OrganizationFields (config cmd)))
             (config_Username (config cmd)))
     :: (Requested <$> (getDomains cmd (orgGuid (config_OrganizationFields (config cmd)))).2)
     ++ [Printed ["name"; "status"; "type"]%string (tableRow ∅ <$> stablePartition domains)])
  ∧ Forall (λ row, length row = 2) (tableRow ∅ <$> stablePartition domains)
  ∧ (∀ requirement routingApi,
       Execute {| config := config cmd; domainRepo := domainRepo cmd;
                  routingApiRepo := routingApi;
                  rountingApiRequirement := requirement |}
       = Execute cmd).
Proof.
  intros Hdomains Hnonempty Hnone.
  pose proof (getDomains_populate _ _ _ _ _ Hdomains) as Hpopulate.
  rewrite (no_reference_populate _ Hnone) in Hpopulate. subst populateRouterGroups.
  assert (Hlen : bool_decide (length domains = 0) = false).
  { apply bool_decide_eq_false. by intros ?%nil_length_inv. }
  assert (Hrun : ∀ cmd',
    config cmd' = config cmd →
    getDomains cmd' (orgGuid (config_OrganizationFields (config cmd)))
      = getDomains cmd (orgGuid (config_OrganizationFields (config cmd))) →
    Execute cmd' =
      (Some (),
       Said (GettingDomainsInOrg (orgName (config_OrganizationFields (config cmd)))
               (config_Username (config cmd)))
       :: (Requested <$> (getDomains cmd (orgGuid (config_OrganizationFields (config cmd)))).2)
       ++ [Printed ["name"; "status"; "type"]%string
             (tableRow ∅ <$> stablePartition domains)])).
  { intros cmd' Hconfig Hsame. rewrite Execute_eq. cbn zeta.
    rewrite Hconfig, Hsame, Hdomains. cbn [fst snd]. by rewrite Hlen. }
  split; [by apply Hrun|]. split.
  - apply Forall_fmap, Forall_forall. intros d Hd.
    apply (proj1 (stablePartition_elem_of d domains)) in Hd. unfold tableRow. simpl. destruct (Shared d) eqn:Hshared; [|done].
    rewrite (Hnone d Hd Hshared). done.
  - intros requirement routingApi. by rewrite !Hrun.
Qed.

Lemma Execute_without_router_groups_witness :
  let p := exampleDomain "Private-domain1" false "" in
  let x := exampleDomain "Shared-domain1" true "" in
  let cmd := exampleCmd (LastPage [p]) (LastPage [x])
               (FetchError (GatewayError "unreachable")) failingRequirement in
  Execute cmd =
    (Some (),
     [Said (GettingDomainsInOrg "my-org" "my-user");
      Requested (PrivateDomainsByOrgURL "my-org-guid");
      Requested SharedDomainsURL;
      Printed ["name"; "status"; "type"]%string
        [["Shared-domain1"; "shared"]; ["Private-domain1"; "owned"]]%string]).
Proof.
  intros p x cmd.
  refine (proj1 (Execute_without_router_groups cmd [p; x] false eq_refl _ _)).
  - discriminate.
  - intros d Hd Hshared.
    apply elem_of_cons in Hd as [->|Hd]; [discriminate Hshared|].
    apply elem_of_cons in Hd as [->|Hd]; [reflexivity|].
    by apply elem_of_nil in Hd.
Defined.

(** X13. When some collected domain is shared with a router-group guid and
    the routing-API requirement fails, [Execute] panics on that
    requirement's failure: the router groups are not requested, no table
    is printed, and no invalid-router-group failure is reported. *)
Theorem Execute_routing_api_missing cmd domains populateRouterGroups :
  (getDomains cmd (orgGuid (config_OrganizationFields (config cmd)))).1
    = (domains, populateRouterGroups, None) →
  (∃ d, d ∈ domains ∧ Shared d = true ∧ RouterGroupGuid d ≠ ""%string) →
  rountingApiRequirement cmd = failingRequirement →
  (Execute cmd).1 = None
  ∧ last (Execute cmd).2 = Some (Failed RoutingApiUriMissing)
  ∧ (∀ message, Failed message ∈ (Execute cmd).2 → message = RoutingApiUriMissing)
  ∧ (∀ headers rows, Printed headers rows ∉ (Execute cmd).2)
  ∧ (Requested RouterGroupsURL ∉ (Execute cmd).2).
Proof.
  intros Hdomains Hrefers Hrequirement.
  pose proof (getDomains_populate _ _ _ _ _ Hdomains) as Hpopulate.
  rewrite (proj2 (existsb_refersToRouterGroup domains) Hrefers) in Hpopulate.
  subst populateRouterGroups.
  assert (Hlen : bool_decide (length domains = 0) = false).
  { apply bool_decide_eq_false. intros ->%nil_length_inv.
    destruct Hrefers as (d & Hin & _). by apply elem_of_nil in Hin. }
  pose proof (getDomains_log_paths cmd (orgGuid (config_OrganizationFields (config cmd))))
    as Hpaths.
  rewrite Execute_eq. cbn zeta. rewrite Hdomains, Hlen, Hrequirement. cbn [fst snd].
  split; [done|]. split; [by rewrite last_snoc|].
  split; [|split].
  - intros message Hevent. outcome_cases Hevent; congruence.
  - intros headers rows Hevent. outcome_cases Hevent; congruence.
  - intros Hevent. outcome_cases Hevent; try congruence.
    match goal with Heq : Requested _ = Requested _ |- _ => injection Heq as <- end.
    match goal with Hin : RouterGroupsURL ∈ _ |- _ =>
      by destruct (Hpaths _ Hin) end.
Qed.

Lemma Execute_routing_api_missing_witness :
  let x := exampleDomain "Shared-domain1" true "router-group-guid" in
  let cmd := exampleCmd (LastPage []) (LastPage [x])
               (LastPage [{| rgGuid := "router-group-guid"; rgName := "default-tcp";
                             rgType := "tcp" |}]) failingRequirement in
  (Execute cmd).1 = None
  ∧ last (Execute cmd).2 = Some (Failed RoutingApiUriMissing).
Proof.
  intros x cmd.
  destruct (Execute_routing_api_missing cmd [x] true eq_refl) as (Hpanic & Hlast & _).
  - exists x. repeat split; [left | discriminate].
  - reflexivity.
  - split; [exact Hpanic | exact Hlast].
Defined.

Lemma getRouterGroups_log_paths cmd p :
  p ∈ (getRouterGroups cmd).2 → p = RouterGroupsURL.
Proof.
  unfold getRouterGroups, ListRouterGroups. rewrite Net_bind_snd.
  intros [Hin|Hin]%elem_of_app.
  - destruct (walkPages_log RouterGroupsURL getRouterGroupsCallback ∅
                (routerGroupCollection (routingApiRepo cmd))) as (n & Hlog & _).
    rewrite Hlog in Hin. by apply elem_of_replicate_inv in Hin.
  - destruct (walkPages RouterGroupsURL getRouterGroupsCallback ∅
                (routerGroupCollection (routingApiRepo cmd))).1 as [index [e|]];
      by apply elem_of_nil in Hin.
Qed.

Lemma getRouterGroups_log_nonempty cmd : RouterGroupsURL ∈ (getRouterGroups cmd).2.
Proof.
  unfold getRouterGroups, ListRouterGroups. rewrite Net_bind_snd.
  apply elem_of_app. left.
  destruct (walkPages_log RouterGroupsURL getRouterGroupsCallback ∅
              (routerGroupCollection (routingApiRepo cmd))) as (n & -> & Hn & _).
  destruct n; [lia|]. by left.
Qed.

(** X14. When some collected domain is shared with a router-group guid, the
    routing-API requirement passes and fetching the router groups fails,
    [Execute] panics after reporting "Failed fetching router groups" with
    that error: the router groups were requested, the references are not
    validated and no table is printed. *)
Theorem Execute_router_groups_fetch_failure cmd domains populateRouterGroups e :
  (getDomains cmd (orgGuid (config_OrganizationFields (config cmd)))).1
    = (domains, populateRouterGroups, None) →
  (∃ d, d ∈ domains ∧ Shared d = true ∧ RouterGroupGuid d ≠ ""%string) →
  rountingApiRequirement cmd = passingRequirement →
  (getRouterGroups cmd).1.2 = Some e →
  (Execute cmd).1 = None
  ∧ last (Execute cmd).2 = Some (Failed (FailedFetchingRouterGroups e))
  ∧ (∀ message, Failed message ∈ (Execute cmd).2 →
       message = FailedFetchingRouterGroups e)
  ∧ (∀ headers rows, Printed headers rows ∉ (Execute cmd).2)
  ∧ Requested RouterGroupsURL ∈ (Execute cmd).2.
Proof.
  intros Hdomains Hrefers Hrequirement Hgroups.
  pose proof (getDomains_populate _ _ _ _ _ Hdomains) as Hpopulate.
  rewrite (proj2 (existsb_refersToRouterGroup domains) Hrefers) in Hpopulate.
  subst populateRouterGroups.
  assert (Hlen : bool_decide (length domains = 0) = false).
  { apply bool_decide_eq_false. intros ->%nil_length_inv.
    destruct Hrefers as (d & Hin & _). by apply elem_of_nil in Hin. }
  pose proof (getRouterGroups_log_nonempty cmd) as Hrequested.
  rewrite Execute_eq. cbn zeta. rewrite Hdomains, Hlen, Hrequirement.
  destruct (getRouterGroups cmd) as [[index err] log].
  cbn [fst snd] in *. subst err. cbn [fst snd].
  split; [done|]. split; [by rewrite !app_assoc, last_snoc|].
  split; [|split].
  - intros message Hevent. outcome_cases Hevent; congruence.
  - intros headers rows Hevent. outcome_cases Hevent; congruence.
  - apply elem_of_app. right. apply elem_of_app. left.
    apply list_elem_of_fmap. by exists RouterGroupsURL.
Qed.

Lemma Execute_router_groups_fetch_failure_witness :
  let x := exampleDomain "Shared-domain1" true "my-router-guid1" in
  let cmd := exampleCmd (LastPage []) (LastPage [x])
               (FetchError (GatewayError "router-group-err")) passingRequirement in
  (Execute cmd).1 = None
  ∧ last (Execute cmd).2
    = Some (Failed (FailedFetchingRouterGroups (GatewayError "router-group-err"))).
Proof.
  intros x cmd.
  destruct (Execute_router_groups_fetch_failure cmd [x] true
              (GatewayError "router-group-err") eq_refl) as (Hpanic & Hlast & _).
  - exists x. repeat split; [left | discriminate].
  - reflexivity.
  - reflexivity.
  - split; [exact Hpanic | exact Hlast].
Defined.

(** X15. When the collected list is not empty, the routing-API requirement
    passes, the router groups are fetched into an index and every
    router-group reference of a shared domain resolves in it, [Execute]
    completes and ends by printing one table with one row per collected
    domain; the row of a shared domain with a router-group guid shows the
    type of the router group the index holds for that guid. *)
Theorem Execute_prints_resolved_table cmd domains populateRouterGroups index :
  (getDomains cmd (orgGuid (config_OrganizationFields (config cmd)))).1
    = (domains, populateRouterGroups, None) →
  domains ≠ [] →
  rountingApiRequirement cmd = passingRequirement →
  (getRouterGroups cmd).1 = (index, None) →
  (∀ d, d ∈ domains → Shared d = true → RouterGroupGuid d ≠ ""%string →
        is_Some (index !! RouterGroupGuid d)) →
  let rows := tableRow index <$> stablePartition domains in
  (Execute cmd).1 = Some ()
  ∧ last (Execute cmd).2 = Some (Printed ["name"; "status"; "type"]%string rows)
  ∧ length rows = length domains
  ∧ (∀ d, d ∈ domains → Shared d = true → RouterGroupGuid d ≠ ""%string →
       ∃ group, index !! RouterGroupGuid d = Some group
                ∧ [Name d; "shared"; rgType group]%string ∈ rows)
  ∧ (∀ d, d ∈ domains → Shared d = false → [Name d; "owned"]%string ∈ rows).
Proof.
  intros Hdomains Hnonempty Hrequirement Hgroups Hresolved rows.
  pose proof (getDomains_populate _ _ _ _ _ Hdomains) as Hpopulate.
  assert (Hlen : bool_decide (length domains = 0) = false).
  { apply bool_decide_eq_false. by intros ?%nil_length_inv. }
  assert (Hfind : find (dangling index) domains = None).
  { destruct (find (dangling index) domains) as [d|] eqn:Hfind; [|done].
    apply find_some in Hfind as [Hd (? & ? & Hnone)%dangling_true].
    apply list_elem_of_In in Hd.
    destruct (Hresolved d) as [g Hg]; try done. congruence. }
  assert (Hrows : populateRouterGroups = false →
                  tableRow ∅ <$> stablePartition domains = rows).
  { intros ->. apply Forall_fmap_ext_1, Forall_forall. intros d Hd.
    apply tableRow_no_reference.
    apply (proj1 (stablePartition_elem_of d domains)) in Hd.
    apply not_true_is_false. intros Hrefers.
    assert (existsb refersToRouterGroup domains = true); [|congruence].
    apply existsb_exists. exists d. split; [by apply list_elem_of_In | done]. }
  rewrite Execute_eq. cbn zeta.
  rewrite Hdomains, Hlen, Hrequirement, Hgroups, Hfind. cbn [fst snd].
  split; [by destruct populateRouterGroups|].
  split.
  { destruct populateRouterGroups; cbn [snd].
    - by rewrite !app_assoc, last_snoc.
    - by rewrite last_snoc, Hrows. }
  split.
  { subst rows. rewrite length_fmap, stablePartition_eq.
    rewrite <- filter_not_shared.
    by rewrite (Permutation_length (filter_app_complement _ domains)). }
  split.
  - intros d Hd Hshared Hguid.
    destruct (Hresolved d Hd Hshared Hguid) as [group Hgroup].
    exists group. split; [done|].
    apply list_elem_of_fmap. exists d.
    split; [|by apply stablePartition_elem_of].
    unfold tableRow, mapIndex. rewrite Hshared, Hgroup.
    by rewrite bool_decide_eq_true_2.
  - intros d Hd Hshared.
    apply list_elem_of_fmap. exists d.
    split; [|by apply stablePartition_elem_of].
    unfold tableRow. by rewrite Hshared.
Qed.

Lemma Execute_prints_resolved_table_witness :
  let p := exampleDomain "Private-domain1" false "" in
  let x := exampleDomain "Shared-domain1" true "my-router-guid1" in
  let group := {| rgGuid := "my-router-guid1"; rgName := "my-router-name1";
                  rgType := "tcp" |} in
  let cmd := exampleCmd (LastPage [p]) (LastPage [x]) (LastPage [group])
               passingRequirement in
  (Execute cmd).1 = Some ()
  ∧ last (Execute cmd).2
    = Some (Printed ["name"; "status"; "type"]%string
              [["Shared-domain1"; "shared"; "tcp"]; ["Private-domain1"; "owned"]]%string).
Proof.
  intros p x group cmd.
  destruct (Execute_prints_resolved_table cmd [p; x] true {[ "my-router-guid1"%string := group ]})
    as (Hdone & Hlast & _).
  - reflexivity.
  - discriminate.
  - reflexivity.
  - reflexivity.
  - intros d Hd Hshared Hguid.
    apply elem_of_cons in Hd as [->|Hd]; [discriminate Hshared|].
    apply elem_of_cons in Hd as [->|Hd]; [|by apply elem_of_nil in Hd].
    exists group. apply lookup_singleton_eq.
  - split; [exact Hdone|]. rewrite Hlast. reflexivity.
Defined.

(** X16. Every run of [Execute] ends in exactly one of three ways.  It
    panics, and then its last event is the one failure it reports, nothing
    was printed and "No domains found" was not said; or it completes
    saying "No domains found" as its last event, without a table; or it
    completes printing one table as its last event.  A run that completes
    reports no failure. *)
Theorem Execute_outcomes cmd :
  match (Execute cmd).1 with
  | None =>
      (∃ message, last (Execute cmd).2 = Some (Failed message)
                  ∧ ∀ message', Failed message' ∈ (Execute cmd).2 → message' = message)
      ∧ (∀ headers rows, Printed headers rows ∉ (Execute cmd).2)
      ∧ (Said NoDomainsFound ∉ (Execute cmd).2)
  | Some _ =>
      (∀ message, Failed message ∉ (Execute cmd).2)
      ∧ ((last (Execute cmd).2 = Some (Said NoDomainsFound)
          ∧ ∀ headers rows, Printed headers rows ∉ (Execute cmd).2)
         ∨ (∃ rows, last (Execute cmd).2
                    = Some (Printed ["name"; "status"; "type"]%string rows)
            ∧ (Said NoDomainsFound ∉ (Execute cmd).2)))
  end.
Proof.
  rewrite Execute_eq. cbn zeta.
  destruct (getDomains cmd (orgGuid (config_OrganizationFields (config cmd))))
    as [[[domains populate] [e|]] log]; cbn [fst snd].
  { split; [|split].
    - exists (FailedFetchingDomains e). split; [by rewrite last_snoc|].
      intros message' Hevent. outcome_cases Hevent; congruence.
    - intros headers rows Hevent. outcome_cases Hevent; congruence.
    - intros Hevent. outcome_cases Hevent; congruence. }
  destruct (bool_decide (length domains = 0)); cbn [fst snd].
  { split.
    - intros message Hevent. outcome_cases Hevent; congruence.
    - left. split; [by rewrite last_snoc|].
      intros headers rows Hevent. outcome_cases Hevent; congruence. }
  destruct populate; cbn [fst snd].
  2:{ split.
      - intros message Hevent. outcome_cases Hevent; congruence.
      - right. eexists. split; [by rewrite last_snoc|].
        intros Hevent. outcome_cases Hevent; congruence. }
  destruct (rountingApiRequirement cmd); cbn [fst snd].
  2:{ split; [|split].
      - exists RoutingApiUriMissing. split; [by rewrite last_snoc|].
        intros message' Hevent. outcome_cases Hevent; congruence.
      - intros headers rows Hevent. outcome_cases Hevent; congruence.
      - intros Hevent. outcome_cases Hevent; congruence. }
  destruct (getRouterGroups cmd) as [[index [e|]] groupsLog]; cbn [fst snd].
  { split; [|split].
    - exists (FailedFetchingRouterGroups e).
      split; [by rewrite !app_assoc, last_snoc|].
      intros message' Hevent. outcome_cases Hevent; congruence.
    - intros headers rows Hevent. outcome_cases Hevent; congruence.
    - intros Hevent. outcome_cases Hevent; congruence. }
  destruct (find (dangling index) domains) as [d|]; cbn [fst snd].
  - split; [|split].
    + exists (InvalidRouterGroupGuid (RouterGroupGuid d)).
      split; [by rewrite !app_assoc, last_snoc|].
      intros message' Hevent. outcome_cases Hevent; congruence.
    + intros headers rows Hevent. outcome_cases Hevent; congruence.
    + intros Hevent. outcome_cases Hevent; congruence.
  - split.
    + intros message Hevent. outcome_cases Hevent; congruence.
    + right. eexists. split; [by rewrite !app_assoc, last_snoc|].
      intros Hevent. outcome_cases Hevent; congruence.
Qed.

(** X17. The page requests of a run of [Execute] are those of [getDomains]
    (all to the two domain locators) followed by those of
    [getRouterGroups] (all to the router-group locator); the latter are
    issued only when the domain walk succeeded, the flag for router groups
    is set and the routing-API requirement passed.  So the domains are
    always fetched first, and the router groups only when needed. *)
Theorem Execute_requests cmd :
  let org := config_OrganizationFields (config cmd) in
  requestsOf (Execute cmd).2 =
    (getDomains cmd (orgGuid org)).2
    ++ match (getDomains cmd (orgGuid org)).1, rountingApiRequirement cmd with
       | (domains, true, None), passingRequirement =>
           if bool_decide (length domains = 0) then [] else (getRouterGroups cmd).2
       | _, _ => []
       end
  ∧ (∀ p, p ∈ (getDomains cmd (orgGuid org)).2 →
          p = PrivateDomainsByOrgURL (orgGuid org) ∨ p = SharedDomainsURL)
  ∧ (∀ p, p ∈ (getRouterGroups cmd).2 → p = RouterGroupsURL).
Proof.
  intros org. split; [|split].
  2:{ apply getDomains_log_paths. }
  2:{ apply getRouterGroups_log_paths. }
  rewrite Execute_eq. cbn zeta. fold org.
  assert (Hone : ∀ log event,
    (∀ p, event ≠ Requested p) →
    requestsOf ((Said (GettingDomainsInOrg (orgName org) (config_Username (config cmd)))
                 :: (Requested <$> log)) ++ [event]) = log ++ []).
  { intros log event Hevent. unfold requestsOf.
    rewrite omap_app. simpl. fold (requestsOf (Requested <$> log)).
    rewrite requestsOf_requested. f_equal.
    destruct event; try done. by destruct (Hevent path). }
  assert (Htwo : ∀ log groupsLog event,
    (∀ p, event ≠ Requested p) →
    requestsOf ((Said (GettingDomainsInOrg (orgName org) (config_Username (config cmd)))
                 :: (Requested <$> log)) ++ (Requested <$> groupsLog) ++ [event])
    = log ++ groupsLog).
  { intros log groupsLog event Hevent. unfold requestsOf.
    rewrite !omap_app. simpl.
    fold (requestsOf (Requested <$> log)). fold (requestsOf (Requested <$> groupsLog)).
    rewrite !requestsOf_requested. f_equal.
    destruct event; try (by rewrite app_nil_r). by destruct (Hevent path). }
  destruct (getDomains cmd (orgGuid org)) as [[[domains populate] [e|]] log];
    cbn [fst snd].
  { rewrite Hone by done. by destruct populate. }
  destruct (bool_decide (length domains = 0)); cbn [fst snd].
  { rewrite Hone by done. destruct populate; [|done].
    by destruct (rountingApiRequirement cmd). }
  destruct populate; cbn [fst snd]; [|by rewrite Hone].
  destruct (rountingApiRequirement cmd); cbn [fst snd]; [|by rewrite Hone].
  destruct (getRouterGroups cmd) as [[index [e|]] groupsLog]; cbn [fst snd].
  { by rewrite Htwo. }
  destruct (find (dangling index) domains); cbn [fst snd]; by rewrite Htwo.
Qed.

(** ** The requests of the default selection *)

Lemma walkPages_stop_first_page {S A} path (cb : Callback S A) s items next :
  (walkItems cb s items).2 = false →
  (walkPages path cb s (Page items next)).2 = [path].
Proof. intros Hstop. by rewrite walkPages_Page, Hstop. Qed.

Lemma walkPages_continue_log {S A} path (cb : Callback S A) s (c : Collection A) :
  first_failure c = None →
  (walkItems cb s (all_items c)).2 = true →
  (walkPages path cb s c).2 = replicate (page_count c) path.
Proof.
  revert s. induction c as [e|items|items next IH]; intros s Hc Hgo.
  - done.
  - done.
  - rewrite walkPages_Page. cbn [all_items first_failure page_count] in *.
    rewrite walkItems_app in Hgo.
    destruct (walkItems cb s items) as [s' []]; cbn [fst snd] in *; [|done].
    by rewrite IH.
Qed.

(** X18. [defaultDomain] walks the whole private collection before it
    looks at the shared one: when the private collection holds private
    domains only and fails on no page, every one of its pages is
    requested; and when the first page of the shared collection holds a
    shared domain, that page is the only one requested from it, however
    many pages follow. *)
Theorem defaultDomain_requests repo orgGuid items next d :
  first_failure (gateway repo (PrivateDomainsByOrgURL orgGuid)) = None →
  Forall (λ d, Shared d = false) (fieldsAt repo (PrivateDomainsByOrgURL orgGuid)) →
  gateway repo SharedDomainsURL = Page items next →
  find Shared (ToFields repo <$> items) = Some d →
  (defaultDomain repo orgGuid).2 =
    replicate (page_count (gateway repo (PrivateDomainsByOrgURL orgGuid)))
      (PrivateDomainsByOrgURL orgGuid)
    ++ [SharedDomainsURL].
Proof.
  intros Hfailure Hprivate Hpage Hfind. unfold defaultDomain.
  rewrite Net_bind_snd, ListDomainsForOrg_eq. cbn zeta.
  rewrite listDomains_result, Hfailure.
  rewrite (walkItems_default_private _ _ Hprivate). cbn [fst snd].
  assert (Hlog1 : (listDomains repo (PrivateDomainsByOrgURL orgGuid)
                     defaultDomainCallback None).2
                  = replicate (page_count (gateway repo (PrivateDomainsByOrgURL orgGuid)))
                      (PrivateDomainsByOrgURL orgGuid)).
  { unfold listDomains, ListPaginatedResources.
    apply walkPages_continue_log; [done|].
    rewrite walkItems_fmap. fold (fieldsAt repo (PrivateDomainsByOrgURL orgGuid)).
    by rewrite (walkItems_default_private _ _ Hprivate). }
  rewrite Hlog1.
  set (s1 := from_option Some None (last (fieldsAt repo (PrivateDomainsByOrgURL orgGuid)))).
  assert (Hlog2 : (listDomains repo SharedDomainsURL defaultDomainCallback s1).2
                  = [SharedDomainsURL]).
  { unfold listDomains, ListPaginatedResources. rewrite Hpage.
    apply walkPages_stop_first_page.
    rewrite walkItems_fmap. by rewrite (walkItems_default_find _ _ _ Hfind). }
  rewrite Hlog2.
  destruct (listDomains repo SharedDomainsURL defaultDomainCallback s1).1 as [[found|] err];
    simpl; by rewrite app_nil_r.
Qed.

Lemma defaultDomain_requests_witness :
  let p := exampleDomain "private.example.com" false "" in
  let q := exampleDomain "other.example.com" false "" in
  let x := exampleDomain "x.example.com" true "" in
  let y := exampleDomain "y.example.com" true "" in
  let repo := exampleRepo (Page [p] (LastPage [q])) (Page [x] (LastPage [y]))
                (LastPage []) (LastPage []) in
  (defaultDomain repo "my-org-guid").2 =
    [PrivateDomainsByOrgURL "my-org-guid"; PrivateDomainsByOrgURL "my-org-guid";
     SharedDomainsURL].
Proof.
  intros p q x y repo.
  refine (defaultDomain_requests repo "my-org-guid" [x] (LastPage [y]) x
            eq_refl _ eq_refl eq_refl).
  repeat constructor.
Defined.
